(** * The offline cache gateway of [src/frontend/service-worker.js]

    A shallow embedding of the service worker: its install, activate and
    fetch listeners, the two fetch strategies [cacheFirst] and
    [networkFirst], and the background upload drain
    [uploadPendingVideos].

    The browser is the environment.  Its mutable parts (cache storage,
    the IndexedDB object store, the console, the worker's lifecycle
    flags) are fields of [World]; the parts the worker cannot control
    (what the network answers, whether an IndexedDB request errors, how
    a URL string parses) are variables of the section below. *)

From Stdlib Require Import Ascii String.
From stdpp Require Import gmap strings list fin_maps.

Open Scope string_scope.
Open Scope list_scope.

(** ** Values *)

(** A [Response] as far as the worker looks at it: the status code and an
    opaque body. *)
Record Response := mkResponse { status : N; body : string }.

(** [response.ok]: the status is in the range 200-299. *)
Definition ok (response : Response) : bool :=
  (200 <=? status response)%N && (status response <=? 299)%N.

Record Request := mkRequest {
  url : string;
  method : string;
  payload : option string
}.

(** The result of [new URL(s)]: only the two properties the worker reads. *)
Record URL := mkURL { href : string; origin : string }.

(** A record of the [uploads] object store; [upload_id] is its key path
    [id], [upload_file] its [file]. *)
Record PendingUpload := mkUpload {
  upload_id : N;
  upload_file : string;
  upload_metadata : string
}.

Inductive Error :=
| TypeError (message : string)
| DOMException (message : string).

(** A settled promise. *)
Inductive Settled (A : Type) :=
| Fulfilled (value : A)
| Rejected (reason : Error).
Arguments Fulfilled {A} value.
Arguments Rejected {A} reason.

Inductive ConsoleArg :=
| NoArg
| StrArg (s : string)
| NumArg (n : N)
| ErrArg (e : Error).

Inductive ConsoleEntry :=
| console_log (message : string) (arg : ConsoleArg)
| console_error (message : string) (arg : ConsoleArg).

(** The three requests the worker makes to IndexedDB. *)
Inductive IdbRequest :=
| IdbOpen
| IdbGetAll
| IdbDelete (key : N).

#[global] Instance Response_eq_dec : EqDecision Response.
Proof. solve_decision. Defined.
#[global] Instance Request_eq_dec : EqDecision Request.
Proof. solve_decision. Defined.
#[global] Instance PendingUpload_eq_dec : EqDecision PendingUpload.
Proof. solve_decision. Defined.
#[global] Instance Error_eq_dec : EqDecision Error.
Proof. solve_decision. Defined.

(** ** The world the worker runs in *)

Record World := mkWorld {
  (** [caches]: cache name to cache, a cache maps a request URL to the last
      response stored for it. *)
  caches : gmap string (gmap string Response);
  (** the [uploads] object store of database [SecureAI], in key order *)
  uploads : list PendingUpload;
  (** every network fetch made so far with how it settled, oldest first *)
  fetched : list (Request * Settled Response);
  console : list ConsoleEntry;
  skipped_waiting : bool;
  clients_claimed : bool
}.

Definition set_caches (f : gmap string (gmap string Response) → gmap string (gmap string Response))
    (w : World) : World :=
  mkWorld (f (caches w)) (uploads w) (fetched w) (console w)
          (skipped_waiting w) (clients_claimed w).

Definition set_uploads (f : list PendingUpload → list PendingUpload) (w : World) : World :=
  mkWorld (caches w) (f (uploads w)) (fetched w) (console w)
          (skipped_waiting w) (clients_claimed w).

Definition add_fetched (e : Request * Settled Response) (w : World) : World :=
  mkWorld (caches w) (uploads w) (fetched w ++ [e]) (console w)
          (skipped_waiting w) (clients_claimed w).

Definition add_console (e : ConsoleEntry) (w : World) : World :=
  mkWorld (caches w) (uploads w) (fetched w) (console w ++ [e])
          (skipped_waiting w) (clients_claimed w).

(** ** Asynchronous computations

    An [async] function, or a promise chain, run to completion: from a
    world to how the promise settled and the world it left. *)
Definition Async (A : Type) : Type := World → Settled A * World.

Definition resolve {A} (a : A) : Async A := λ w, (Fulfilled a, w).
Definition reject {A} (e : Error) : Async A := λ w, (Rejected e, w).

(** [await p] followed by [k], and equally [p.then(k)]. *)
Definition and_then {A B} (p : Async A) (k : A → Async B) : Async B :=
  λ w, match p w with
       | (Fulfilled a, w') => k a w'
       | (Rejected e, w') => (Rejected e, w')
       end.

(** [try { p } catch (error) { h }], and equally [p.catch(h)]. *)
Definition catch {A} (p : Async A) (h : Error → Async A) : Async A :=
  λ w, match p w with
       | (Fulfilled a, w') => (Fulfilled a, w')
       | (Rejected e, w') => h e w'
       end.

Notation "'await' x ← p ; k" := (and_then p (λ x, k))
  (at level 20, x name, p at level 100, k at level 200,
   format "'await'  x  ←  p ;  '/' k").
Notation "p ;; k" := (and_then p (λ _, k))
  (at level 100, k at level 200, right associativity).

(** [Promise.all] over computations started in list order. *)
Fixpoint Promise_all {A} (ps : list (Async A)) : Async (list A) :=
  match ps with
  | [] => resolve []
  | p :: rest =>
      await a ← p;
      await others ← Promise_all rest;
      resolve (a :: others)
  end.

Definition log (message : string) (arg : ConsoleArg) : Async unit :=
  λ w, (Fulfilled tt, add_console (console_log message arg) w).

Definition log_error (message : string) (arg : ConsoleArg) : Async unit :=
  λ w, (Fulfilled tt, add_console (console_error message arg) w).

(** [s.includes(search)]: [search] occurs in [s] as a substring. *)
Fixpoint includes (s search : string) : bool :=
  String.prefix search s ||
  match s with
  | EmptyString => false
  | String _ rest => includes rest search
  end.

(** [search] occurs in [s]: [s] is some text, then [search], then some text. *)
Definition occurs_in (search s : string) : Prop :=
  ∃ before after, s = before +:+ search +:+ after.

(** ** Constants of the worker *)

Definition CACHE_NAME : string := "secureai-v1.0.0".
Definition STATIC_CACHE : string := "secureai-static-v1.0.0".
Definition DYNAMIC_CACHE : string := "secureai-dynamic-v1.0.0".

Definition STATIC_ASSETS : list string :=
  [ "/";
    "/index.html";
    "/css/style.css";
    "/js/main.js";
    "/js/dashboard.js";
    "/js/charts.js";
    "/js/voice-commands.js";
    "/manifest.json";
    "https://fonts.googleapis.com/css2?family=Inter:wght@300;400;500;600;700&display=swap";
    "https://cdnjs.cloudflare.com/ajax/libs/font-awesome/6.4.0/css/all.min.css";
    "https://cdn.jsdelivr.net/npm/chart.js@4.4.0/dist/chart.umd.js" ].

Definition GET (u : string) : Request := mkRequest u "GET" None.

(** ** Platform operations on the world

    Cache storage follows the spec's data model: a cache is a mapping from
    request identity to the last stored response, and is keyed here by the
    request URL.  A cache handle is the cache's name.  The operations of
    cache storage always fulfil; which responses the platform admits to a
    cache beyond that (request method, partial content) is not modelled. *)

(** [caches.open(name)]: creates the cache when it does not exist. *)
Definition caches_open (name : string) : Async string :=
  λ w, (Fulfilled name,
        match caches w !! name with
        | Some _ => w
        | None => set_caches (insert name ∅) w
        end).

(** What cache [cache] holds for [key]. *)
Definition stored (cache key : string) (w : World) : option Response :=
  caches w !! cache ≫= λ entries, entries !! key.

(** [cache.match(key)]: [undefined] ([None]) when nothing is stored. *)
Definition cache_match (cache key : string) : Async (option Response) :=
  λ w, (Fulfilled (stored cache key w), w).

(** [cache.put(key, response)]: replaces the whole entry. *)
Definition cache_put (cache key : string) (response : Response) : Async unit :=
  λ w, (Fulfilled tt, set_caches (alter (insert key response) cache) w).

(** Whether the platform's cache takes a response for a request: [put]
    refuses a request whose method is not GET and a response of status 206
    (and a response whose Vary header is a star; the responses here carry
    no headers). *)
Definition cache_admits (request : Request) (response : Response) : bool :=
  String.eqb (method request) "GET" && negb (status response =? 206)%N.

(** [cache.put(request, response)]: the entry for the request's URL is
    replaced when the cache takes the pair; otherwise the promise rejects
    and nothing is stored. *)
Definition cache_put_request (cache : string) (request : Request) (response : Response)
    : Async unit :=
  if cache_admits request response
  then cache_put cache (url request) response
  else reject (TypeError "Failed to execute 'put' on 'Cache'").

(** What [cache.match(request)] finds: the entry for the request's URL when
    the request is a GET, nothing for any other method. *)
Definition matching (cache : string) (request : Request) (w : World) : option Response :=
  if String.eqb (method request) "GET" then stored cache (url request) w else None.

(** [cache.match(request)] *)
Definition cache_match_request (cache : string) (request : Request)
    : Async (option Response) :=
  λ w, (Fulfilled (matching cache request w), w).

(** [caches.keys()]; the order of the names is the map's, and nothing
    below depends on it. *)
Definition caches_keys : Async (list string) :=
  λ w, (Fulfilled (map_to_list (caches w)).*1, w).

(** [caches.delete(name)]: fulfils with whether the cache existed. *)
Definition caches_delete (name : string) : Async bool :=
  λ w, (Fulfilled (bool_decide (is_Some (caches w !! name))),
        set_caches (delete name) w).

Definition skipWaiting : Async unit :=
  λ w, (Fulfilled tt,
        mkWorld (caches w) (uploads w) (fetched w) (console w) true (clients_claimed w)).

Definition clients_claim : Async unit :=
  λ w, (Fulfilled tt,
        mkWorld (caches w) (uploads w) (fetched w) (console w) (skipped_waiting w) true).

(** How the runtime reads the promise an install listener handed to
    [event.waitUntil]: fulfilled, the worker is installed and goes on to
    activate; rejected, the install has failed and the worker is discarded. *)
Inductive Lifecycle := Installed | Redundant.

Definition after_install (settled : Settled unit) : Lifecycle :=
  match settled with
  | Fulfilled _ => Installed
  | Rejected _ => Redundant
  end.

(** A promise that is started and not awaited: its effects happen, how it
    settles is not looked at. *)
Definition not_awaited {A} (p : Async A) : Async unit :=
  λ w, (Fulfilled tt, (p w).2).

(** ** Push messages and notifications

    The push and the notificationclick listeners, as functions from what
    the event carries to what the worker asks of the platform; their
    console lines are left out. *)

(** A JavaScript value, as far as the listeners look at one. *)
Inductive JsValue :=
| JsUndefined
| JsNull
| JsBool (b : bool)
| JsNumber (n : Z)
| JsString (s : string)
| JsObject.

(** Whether a value counts as true in [a || b]. *)
Definition truthy (v : JsValue) : bool :=
  match v with
  | JsUndefined | JsNull => false
  | JsBool b => b
  | JsNumber n => negb (n =? 0)%Z
  | JsString s => negb (String.eqb s "")
  | JsObject => true
  end.

(** [a || b] *)
Definition js_or (a b : JsValue) : JsValue := if truthy a then a else b.

(** The five properties the push listener reads from the parsed message;
    a property the message lacks is [JsUndefined]. *)
Record PushFields := mkPushFields {
  field_title : JsValue;
  field_body : JsValue;
  field_tag : JsValue;
  field_requireInteraction : JsValue;
  field_url : JsValue
}.

(** What [event.data.json()] does: it throws on text that is not JSON,
    and gives null or a value with properties otherwise. *)
Inductive PushData :=
| NotJson
| JsonNull
| JsonValue (fields : PushFields).

Record NotificationAction := mkAction {
  action : string;
  action_title : string;
  action_icon : string
}.

(** The arguments of [showNotification(title, options)]. *)
Record Notification := mkNotification {
  title : JsValue;
  options_body : JsValue;
  icon : string;
  badge : string;
  vibrate : list N;
  tag : JsValue;
  requireInteraction : JsValue;
  actions : list NotificationAction;
  data_url : JsValue;
  data_timestamp : N
}.

Inductive PushError := SyntaxError | PropertyOfNull.

Inductive PushOutcome :=
| Thrown (error : PushError)
| Shown (notification : Notification).

(** [const data = event.data ? event.data.json() : {}] *)
Definition push_data (event_data : option PushData) : PushError + PushFields :=
  match event_data with
  | None => inr (mkPushFields JsUndefined JsUndefined JsUndefined JsUndefined JsUndefined)
  | Some NotJson => inl SyntaxError
  | Some JsonNull => inl PropertyOfNull
  | Some (JsonValue fields) => inr fields
  end.

(** The push listener; [now] is [Date.now()]. *)
Definition push_listener (event_data : option PushData) (now : N) : PushOutcome :=
  match push_data event_data with
  | inl error => Thrown error
  | inr data =>
      let title := js_or (field_title data) (JsString "Security Alert") in
      let options :=
        mkNotification title
          (js_or (field_body data) (JsString "New security event detected"))
          "/icons/icon-192x192.png"
          "/icons/badge-72x72.png"
          [200; 100; 200]%N
          (js_or (field_tag data) (JsString "security-alert"))
          (js_or (field_requireInteraction data) (JsBool false))
          [ mkAction "view" "View Details" "/icons/action-view.png";
            mkAction "dismiss" "Dismiss" "/icons/action-dismiss.png" ]
          (js_or (field_url data) (JsString "/"))
          now in
      Shown options
  end.

(** A window client: its URL and whether it has a [focus] method. *)
Record WindowClient := mkClient { client_url : string; has_focus : bool }.

Inductive ClickEffect :=
| CloseNotification
| FocusClient (index : nat)
| OpenWindow (target : JsValue).

#[global] Instance JsValue_eq_dec : EqDecision JsValue.
Proof. solve_decision. Defined.

(** The test of the loop over the window clients:
    [client.url === urlToOpen && 'focus' in client]. *)
Definition shows (urlToOpen : JsValue) (client : WindowClient) : bool :=
  bool_decide (JsString (client_url client) = urlToOpen) && has_focus client.

(** The notificationclick listener: [action] is [event.action],
    [windowClients] what [clients.matchAll] fulfils with, [openWindow]
    whether [clients.openWindow] exists. *)
Definition notificationclick_listener (action : string) (notification : Notification)
    (windowClients : list WindowClient) (openWindow : bool) : list ClickEffect :=
  CloseNotification ::
  if String.eqb action "view" then
    let urlToOpen := js_or (data_url notification) (JsString "/") in
    match list_find (λ client, shows urlToOpen client = true) windowClients with
    | Some (index, _) => [FocusClient index]
    | None => if openWindow then [OpenWindow urlToOpen] else []
    end
  else [].


(** ** Voice commands ([src/frontend/js/voice-commands.js])

    [processVoiceCommand] as a function from the recognised text and what
    it reads from the page to the calls it makes, in order. *)

(** What the command handler reads from the document. *)
Record Page := mkPage {
  dark_theme : bool;
  anomaliesDetected : string;
  activeCameras : string;
  peopleDetected : string
}.

(** The calls of [processVoiceCommand]; [later f] is [setTimeout(f, 500)]. *)
Inductive VoiceCall :=
| hideVoiceIndicator
| navigateToSection (section : string)
| speak (text : string)
| toggleTheme
| openReportGenerator
| openUploadModal
| showNotification (message type : string)
| loadDashboardData
| later_showVoiceCommandsHelp.

Definition quote : string := String (Ascii.ascii_of_nat 34) EmptyString.

Definition processVoiceCommand (command : string) (page : Page) : list VoiceCall :=
  hideVoiceIndicator ::
  if includes command "dashboard" || includes command "home" then
    [navigateToSection "dashboard"; speak "Showing dashboard"]
  else if includes command "camera" || includes command "cameras" then
    [navigateToSection "cameras"; speak "Showing cameras"]
  else if includes command "alert" || includes command "alerts" then
    [navigateToSection "alerts"; speak "Showing alerts"]
  else if includes command "report" || includes command "reports" then
    [navigateToSection "reports"; speak "Showing reports"]
  else if includes command "dark mode" || includes command "dark theme" then
    if negb (dark_theme page)
    then [toggleTheme; speak "Dark mode activated"]
    else [speak "Dark mode is already active"]
  else if includes command "light mode" || includes command "light theme" then
    if dark_theme page
    then [toggleTheme; speak "Light mode activated"]
    else [speak "Light mode is already active"]
  else if includes command "how many alert" || includes command "number of alert" then
    [speak ("There are " +:+ anomaliesDetected page +:+ " alerts today")]
  else if includes command "how many camera" || includes command "number of camera" then
    [speak ("There are " +:+ activeCameras page +:+ " active cameras")]
  else if includes command "how many people" || includes command "people detected" then
    [speak (peopleDetected page +:+ " people have been detected today")]
  else if includes command "generate report" then
    [openReportGenerator; speak "Opening report generator"]
  else if includes command "upload video" || includes command "upload file" then
    [openUploadModal; speak "Opening upload dialog"]
  else if includes command "show today" || includes command "todays"
          || includes command "today's" then
    if includes command "anomal" || includes command "alert"
    then [navigateToSection "alerts"; speak "Showing today's anomalies"]
    else [navigateToSection "dashboard"; speak "Showing today's overview"]
  else if includes command "show yesterday" then
    [showNotification "Showing yesterday's data" "info";
     speak "Loading yesterday's data"]
  else if includes command "refresh" || includes command "reload" then
    [loadDashboardData; speak "Refreshing dashboard"]
  else if includes command "what"
          && (includes command "status" || includes command "happening") then
    [speak ("System status: " +:+ activeCameras page +:+ " cameras online, "
            +:+ anomaliesDetected page +:+ " alerts today")]
  else if includes command "help" || includes command "what can you do" then
    [speak "You can say: show dashboard, show cameras, show alerts, generate report, how many alerts, dark mode, or light mode";
     showNotification "Voice Commands Help" "info";
     later_showVoiceCommandsHelp]
  else
    [speak "Sorry, I didn't understand that command. Say help to see available commands.";
     showNotification
       ("Command not recognized. Say " +:+ quote +:+ "help" +:+ quote
        +:+ " for available commands.") "error"].

(** The texts a list of calls hands to [speak]. *)
Definition spoken (calls : list VoiceCall) : list string :=
  omap (λ call, match call with speak text => Some text | _ => None end) calls.


(** ** Concrete environments, for the examples below *)

Definition offline : list (Request * Settled Response) → Request → Settled Response :=
  λ _ _, Rejected (TypeError "Failed to fetch").

Definition online : list (Request * Settled Response) → Request → Settled Response :=
  λ _ request, Fulfilled (mkResponse 200 (url request)).

Definition server_error : list (Request * Settled Response) → Request → Settled Response :=
  λ _ _, Fulfilled (mkResponse 500 "Internal Server Error").

(** Answers the first fetch and is unreachable from then on. *)
Definition online_once : list (Request * Settled Response) → Request → Settled Response :=
  λ history request,
    match history with
    | [] => Fulfilled (mkResponse 200 (url request))
    | _ => Rejected (TypeError "Failed to fetch")
    end.

(** Refuses the file clip-2 with status 500 and accepts every other one. *)
Definition refuses_clip_2 : list (Request * Settled Response) → Request → Settled Response :=
  λ _ request,
    if decide (payload request = Some "clip-2")
    then Fulfilled (mkResponse 500 "")
    else Fulfilled (mkResponse 201 "").

(** Serves every asset but /js/main.js. *)
Definition main_js_unreachable : list (Request * Settled Response) → Request → Settled Response :=
  λ _ request,
    if decide (url request = "/js/main.js")
    then Rejected (TypeError "Failed to fetch")
    else Fulfilled (mkResponse 200 (url request)).

Definition store_works : IdbRequest → option Error := λ _, None.

Definition delete_fails : IdbRequest → option Error :=
  λ r, match r with
       | IdbDelete _ => Some (DOMException "AbortError")
       | _ => None
       end.

Definition fresh_world : World := mkWorld ∅ [] [] [] false false.

Definition home_page : Response := mkResponse 200 "<html>".

Definition installed_world : World :=
  mkWorld {[ STATIC_CACHE := {[ "/index.html" := home_page ]} ]} [] [] [] true false.

(** The dynamic partition holds a copy of an earlier answer to /api/cameras. *)
Definition mirrored_world : World :=
  mkWorld {[ DYNAMIC_CACHE := {[ "/api/cameras" := mkResponse 200 "[cameras]" ]} ]}
          [] [] [] true true.

Definition old_version_world : World :=
  mkWorld {[ "secureai-static-v0.9.0" := {[ "/index.html" := home_page ]};
             STATIC_CACHE := {[ "/index.html" := home_page ]};
             DYNAMIC_CACHE := ∅ ]} [] [] [] true false.

Definition clip_1 : PendingUpload := mkUpload 1 "clip-1" "front door".
Definition clip_2 : PendingUpload := mkUpload 2 "clip-2" "garage".
Definition clip_3 : PendingUpload := mkUpload 3 "clip-3" "yard".

Definition one_pending : World := mkWorld ∅ [clip_1] [] [] false false.
Definition three_pending : World := mkWorld ∅ [clip_1; clip_2; clip_3] [] [] false false.

(** A URL parser for the examples: the origin is the text before the third
    slash of the URL. *)
Fixpoint before_slash (n : nat) (s : string) : string :=
  match s with
  | EmptyString => EmptyString
  | String c rest =>
      if Ascii.eqb c "/"%char
      then match n with
           | 0 => EmptyString
           | S n' => String c (before_slash n' rest)
           end
      else String c (before_slash n rest)
  end.

Definition example_URL (s : string) : URL := mkURL s (before_slash 2 s).

(** Accepts every file but clip-2, whose transfer never gets through. *)
Definition clip_2_unreachable : list (Request * Settled Response) → Request → Settled Response :=
  λ _ request,
    if decide (payload request = Some "clip-2")
    then Rejected (TypeError "Failed to fetch")
    else Fulfilled (mkResponse 201 "").

(** A second record for the file of [clip_1], under a key of its own. *)
Definition clip_1_again : PendingUpload := mkUpload 4 "clip-1" "front door".

Definition twin_pending : World :=
  mkWorld ∅ [clip_1; clip_1_again; clip_3] [] [] false false.

(** Refuses the second fetch it sees with status 500, whatever is posted,
    and accepts every other one. *)
Definition refuses_second_fetch : list (Request * Settled Response) → Request → Settled Response :=
  λ history _,
    if decide (length history = 1)
    then Fulfilled (mkResponse 500 "")
    else Fulfilled (mkResponse 201 "").

(** Serves a range of the resource asked for: status 206. *)
Definition partial_content : list (Request * Settled Response) → Request → Settled Response :=
  λ _ _, Fulfilled (mkResponse 206 "bytes 0-1023").

(** A push message that names an alert page and leaves its title empty. *)
Definition alert_message : PushFields :=
  mkPushFields (JsString "") (JsString "Motion at the front door") JsUndefined
               (JsBool true) (JsString "/alerts").

Definition two_windows : list WindowClient :=
  [ mkClient "https://secureai.example/" true;
    mkClient "https://secureai.example/alerts" true ].


Section Worker.

Set Default Proof Using "Type".

(** What the network answers to a request, given everything fetched before. *)
Variable network : list (Request * Settled Response) → Request → Settled Response.
(** Whether an IndexedDB request ends in [onerror] ([Some error]) or in
    [onsuccess] ([None]). *)
Variable indexedDB : IdbRequest → option Error.
(** The platform's URL parser and the worker's own origin. *)
Variable new_URL : string → URL.
Variable location_origin : string.

(** Propositional goals, decided without looking at the section's variables. *)
Ltac propositional :=
  try clear new_URL; try clear location_origin;
  try clear indexedDB; try clear network;
  intuition congruence.

(** [fetch(request)] *)
Definition fetch (request : Request) : Async Response :=
  λ w, let outcome := network (fetched w) request in
       (outcome, add_fetched (request, outcome) w).

(** The responses [cache.addAll] collects: it stops with a [TypeError] at
    the first URL whose fetch rejects or whose response is not ok. *)
Fixpoint fetch_each (urls : list string) : Async (list (string * Response)) :=
  match urls with
  | [] => resolve []
  | u :: rest =>
      await response ← fetch (GET u);
      if ok response then
        await others ← fetch_each rest;
        resolve ((u, response) :: others)
      else reject (TypeError "Request failed")
  end.

(** [cache.addAll(urls)]: all entries are stored, or none is. *)
Definition cache_addAll (cache : string) (urls : list string) : Async unit :=
  await responses ← fetch_each urls;
  λ w, (Fulfilled tt,
        set_caches (alter (λ entries, foldl (λ m e, <[e.1 := e.2]> m) entries responses) cache) w).

(** *** Install listener: the promise handed to [event.waitUntil] *)
Definition install_listener : Async unit :=
  log "[Service Worker] Installing..." NoArg ;;
  catch
    (and_then
       (and_then (caches_open STATIC_CACHE)
          (λ cache,
             log "[Service Worker] Caching static assets" NoArg ;;
             cache_addAll cache STATIC_ASSETS))
       (λ _,
          log "[Service Worker] Installation complete" NoArg ;;
          skipWaiting))
    (λ error, log_error "[Service Worker] Installation failed:" (ErrArg error)).

(** *** Activate listener *)

(** The names the listener hands to [caches.delete]. *)
Definition old_caches (cacheNames : list string) : list string :=
  filter (λ name, name ≠ STATIC_CACHE ∧ name ≠ DYNAMIC_CACHE) cacheNames.

Definition activate_listener : Async unit :=
  log "[Service Worker] Activating..." NoArg ;;
  and_then
    (and_then caches_keys
       (λ cacheNames,
          Promise_all
            ((λ name,
                log "[Service Worker] Deleting old cache:" (StrArg name) ;;
                caches_delete name) <$> old_caches cacheNames)))
    (λ _,
       log "[Service Worker] Activation complete" NoArg ;;
       clients_claim).

(** *** Fetch strategies *)

Definition offline_response : Response :=
  mkResponse 503 "Offline - Please check your connection".

Definition cacheFirst (request : Request) : Async Response :=
  await cache ← caches_open STATIC_CACHE;
  await cached ← cache_match cache (url request);
  match cached with
  | Some cached =>
      log "[Service Worker] Serving from cache:" (StrArg (url request)) ;;
      resolve cached
  | None =>
      catch
        (await response ← fetch request;
         (if ok response then
            await cache ← caches_open DYNAMIC_CACHE;
            not_awaited (cache_put_request cache request response)
          else resolve tt) ;;
         resolve response)
        (λ error,
           log_error "[Service Worker] Fetch failed:" (ErrArg error) ;;
           await offlineCache ← caches_open STATIC_CACHE;
           await offlinePage ← cache_match offlineCache "/offline.html";
           match offlinePage with
           | Some offlinePage => resolve offlinePage
           | None => resolve offline_response
           end)
  end.

Definition networkFirst (request : Request) : Async Response :=
  catch
    (await response ← fetch request;
     (if ok response then
        await cache ← caches_open DYNAMIC_CACHE;
        not_awaited (cache_put_request cache request response)
      else resolve tt) ;;
     resolve response)
    (λ error,
       log "[Service Worker] Network failed, trying cache:" (StrArg (url request)) ;;
       await cache ← caches_open DYNAMIC_CACHE;
       await cached ← cache_match_request cache request;
       match cached with
       | Some cached => resolve cached
       | None => reject error
       end).

(** *** Fetch listener *)

Inductive Strategy := NetworkFirst | CacheFirst.

Definition strategy_handler (s : Strategy) : Request → Async Response :=
  match s with
  | NetworkFirst => networkFirst
  | CacheFirst => cacheFirst
  end.

(** [None]: the listener returns without [event.respondWith], the request
    is left to the browser.  [Some s]: it responds with strategy [s]. *)
Definition fetch_listener (request : Request) : option Strategy :=
  let parsed := new_URL (url request) in
  if negb (String.eqb (origin parsed) location_origin)
     && negb (includes (href parsed) "cdnjs.cloudflare.com")
     && negb (includes (href parsed) "fonts.googleapis.com")
  then None
  else if includes (url request) "/api/"
       then Some NetworkFirst
       else Some CacheFirst.

(** What the page gets for a request the worker handles. *)
Definition respondWith (request : Request) : option (Async Response) :=
  (λ s, strategy_handler s request) <$> fetch_listener request.

(** *** Background sync *)

Definition openDatabase : Async unit :=
  match indexedDB IdbOpen with
  | Some error => reject error
  | None => resolve tt
  end.

Definition getPendingUploads (db : unit) : Async (list PendingUpload) :=
  match indexedDB IdbGetAll with
  | Some error => reject error
  | None => λ w, (Fulfilled (uploads w), w)
  end.

Definition removePendingUpload (db : unit) (id : N) : Async unit :=
  match indexedDB (IdbDelete id) with
  | Some error => reject error
  | None => λ w, (Fulfilled tt, set_uploads (filter (λ u, upload_id u ≠ id)) w)
  end.

(** The request of one transfer: the record's file posted as form data. *)
Definition upload_request (upload : PendingUpload) : Request :=
  mkRequest "/api/videos/upload" "POST" (Some (upload_file upload)).

(** The body of [for (const upload of pending)]. *)
Fixpoint upload_each (db : unit) (pending : list PendingUpload) : Async unit :=
  match pending with
  | [] => resolve tt
  | upload :: rest =>
      await response ← fetch (upload_request upload);
      (if ok response then
         removePendingUpload db (upload_id upload) ;;
         log "[Service Worker] Video uploaded:" (NumArg (upload_id upload))
       else resolve tt) ;;
      upload_each db rest
  end.

Definition uploadPendingVideos : Async unit :=
  catch
    (await db ← openDatabase;
     await pending ← getPendingUploads db;
     upload_each db pending)
    (λ error, log_error "[Service Worker] Upload failed:" (ErrArg error)).

Definition syncAlerts : Async unit :=
  catch
    (await response ← fetch (mkRequest "/api/alerts/sync" "POST" None);
     if ok response
     then log "[Service Worker] Alerts synced successfully" NoArg
     else resolve tt)
    (λ error, log_error "[Service Worker] Alert sync failed:" (ErrArg error)).

Definition sync_listener (tag : string) : Async unit :=
  log "[Service Worker] Background sync:" (StrArg tag) ;;
  if String.eqb tag "sync-alerts" then syncAlerts
  else if String.eqb tag "upload-video" then uploadPendingVideos
  else resolve tt.

(** The statements both strategies run on a fetched response, named for
    the proofs: a response that is ok is put into the dynamic partition,
    which takes it or refuses it; [cache.put] is not awaited, so a refusal
    goes unnoticed. *)
Definition keep_copy (request : Request) (response : Response) : Async unit :=
  if ok response then
    await cache ← caches_open DYNAMIC_CACHE;
    not_awaited (cache_put_request cache request response)
  else resolve tt.

(** ** The claims as the specification words them, where the code differs *)

(** Network-first as claimed, under a reading [succeeded] of when a fetch
    that resolved counts as a success: a successful fetch is returned and
    mirrored into the dynamic partition; any other fetch falls back to the
    mirrored copy when there is one, and otherwise its failure goes to the
    caller. *)
Definition networkFirst_as_claimed (succeeded : Response → bool)
    (request : Request) (w : World) : Prop :=
  let r := networkFirst request w in
  let fall_back (failure : Settled Response) :=
    r.1 = match stored DYNAMIC_CACHE (url request) w with
          | Some cached => Fulfilled cached
          | None => failure
          end in
  match network (fetched w) request with
  | Fulfilled response =>
      if succeeded response
      then r.1 = Fulfilled response ∧
           stored DYNAMIC_CACHE (url request) r.2 = Some response
      else fall_back (Fulfilled response)
  | Rejected error => fall_back (Rejected error)
  end.

(** The fetch listener as claimed: a cross-origin request to a host other
    than the two allow-listed ones is left to the browser.  A request is to
    a host when the host name occurs in its origin. *)
Definition passes_through_other_hosts (request : Request) : Prop :=
  let parsed := new_URL (url request) in
  origin parsed ≠ location_origin →
  ¬ occurs_in "cdnjs.cloudflare.com" (origin parsed) →
  ¬ occurs_in "fonts.googleapis.com" (origin parsed) →
  fetch_listener request = None.

(** The fetches made between world [w] and a later world [w']. *)
Definition new_fetches (w w' : World) : list (Request * Settled Response) :=
  drop (length (fetched w)) (fetched w').

(** The transfer attempt for record [u] in the pass from [w] to [w']
    returned success: [u] is the [i]-th pending record, and the [i]-th
    fetch of the pass posted its file and got an ok response. *)
Definition transfer_succeeded (w w' : World) (u : PendingUpload) : Prop :=
  ∃ i response,
    uploads w !! i = Some u ∧
    new_fetches w w' !! i = Some (upload_request u, Fulfilled response) ∧
    ok response = true.

(** A transfer fails by a rejected fetch or by a response that is not ok. *)
Definition transfer_fails (outcome : Settled Response) : Prop :=
  match outcome with
  | Fulfilled response => ok response = false
  | Rejected _ => True
  end.

(** The drain as claimed: a record is removed if and only if its transfer
    attempt returned success. *)
Definition removed_iff_transferred (w : World) : Prop :=
  let w' := (uploadPendingVideos w).2 in
  NoDup (upload_id <$> uploads w) →
  ∀ u, u ∈ uploads w → (u ∉ uploads w' ↔ transfer_succeeded w w' u).

(** Of the pending records of [w] only the one at position [K] fails to
    transfer.  In a pass that starts in [w] the record at position [i] is
    attempted, if at all, as the [i]-th fetch of the pass, that is after
    [length (fetched w) + i] fetches: that attempt fails for the [K]-th
    record and gets an ok response for every other one. *)
Definition only_kth_fails (w : World) (K : nat) : Prop :=
  ∀ history i u, uploads w !! i = Some u →
    length history = length (fetched w) + i →
    if decide (i = K)
    then transfer_fails (network history (upload_request u))
    else ∃ response,
           network history (upload_request u) = Fulfilled response ∧
           ok response = true.

(** The sync pass as claimed: with only the [K]-th of N records failing,
    and a store whose requests succeed, every record is attempted in order
    and the [K]-th record is the only one that remains. *)
Definition one_failure_leaves_only_the_kth (w : World) (K : nat) : Prop :=
  let w' := (uploadPendingVideos w).2 in
  NoDup (upload_id <$> uploads w) →
  (∀ r, indexedDB r = None) →
  only_kth_fails w K →
  ∀ uK, uploads w !! K = Some uK →
    (new_fetches w w').*1 = upload_request <$> uploads w ∧
    uploads w' = [uK].

(** Cache-first as claimed: on a miss of the static partition the fetched
    response is written into the dynamic partition, and a repeat of the
    request is fetched from the network again. *)
Definition cacheFirst_writes_and_refetches (request : Request) (w : World) : Prop :=
  stored STATIC_CACHE (url request) w = None →
  ∀ response, network (fetched w) request = Fulfilled response →
    let w1 := (cacheFirst request w).2 in
    stored DYNAMIC_CACHE (url request) w1 = Some response ∧
    fetched (cacheFirst request w1).2 =
      fetched w1 ++ [(request, network (fetched w1) request)].

(** ** Properties *)

(** *** Cache storage *)

Lemma stored_caches_open name cache key w :
  stored cache key (caches_open name w).2 = stored cache key w.
Proof.
  unfold caches_open, stored; simpl.
  destruct (caches w !! name) eqn:Hname; [done|]. simpl.
  destruct (decide (name = cache)) as [->|Hne].
  - by rewrite lookup_insert_eq, Hname.
  - by rewrite lookup_insert_ne.
Qed.

Lemma caches_open_fetched name w : fetched (caches_open name w).2 = fetched w.
Proof. unfold caches_open; simpl. by destruct (caches w !! name). Qed.

Lemma caches_open_is_Some name w : is_Some (caches (caches_open name w).2 !! name).
Proof.
  unfold caches_open; simpl. destruct (caches w !! name) eqn:Hname; simpl.
  - by rewrite Hname.
  - by rewrite lookup_insert_eq.
Qed.

Lemma stored_cache_put cache key response cache' key' w :
  is_Some (caches w !! cache) →
  stored cache' key' (cache_put cache key response w).2 =
    if decide (cache = cache' ∧ key = key') then Some response else stored cache' key' w.
Proof.
  intros [entries Hentries]. unfold cache_put, stored; simpl.
  destruct (decide (cache = cache')) as [<-|Hc].
  - rewrite lookup_alter_eq, Hentries; simpl.
    destruct (decide (key = key')) as [<-|Hk].
    + rewrite decide_True by done. apply lookup_insert_eq.
    + rewrite decide_False by (by intros [_ ?]). by apply lookup_insert_ne.
  - rewrite decide_False by (by intros [? _]). by rewrite lookup_alter_ne.
Qed.

Lemma keep_copy_fulfils request response w :
  (keep_copy request response w).1 = Fulfilled tt.
Proof. unfold keep_copy. by destruct (ok response). Qed.

Lemma keep_copy_fetched request response w :
  fetched (keep_copy request response w).2 = fetched w.
Proof.
  unfold keep_copy. destruct (ok response); [|done].
  unfold and_then, not_awaited, cache_put_request, cache_put, reject.
  destruct (cache_admits request response); simpl; apply caches_open_fetched.
Qed.

Lemma keep_copy_stored request response cache key w :
  stored cache key (keep_copy request response w).2 =
    if decide (ok response = true ∧ cache_admits request response = true ∧
               DYNAMIC_CACHE = cache ∧ url request = key)
    then Some response else stored cache key w.
Proof.
  unfold keep_copy. destruct (ok response).
  - unfold and_then, not_awaited.
    change (caches_open DYNAMIC_CACHE w) with
      (Fulfilled DYNAMIC_CACHE, (caches_open DYNAMIC_CACHE w).2).
    cbv beta iota. unfold snd at 1. unfold cache_put_request.
    destruct (cache_admits request response).
    + rewrite stored_cache_put by apply caches_open_is_Some.
      rewrite stored_caches_open.
      destruct (decide (DYNAMIC_CACHE = cache ∧ url request = key)).
      * by rewrite decide_True.
      * by rewrite decide_False by (by intros (_ & _ & ?)).
    + cbn [reject snd]. rewrite stored_caches_open.
      by rewrite decide_False by (by intros (_ & ? & _)).
  - by rewrite decide_False by (by intros [? _]).
Qed.

(** *** The strategies, case by case *)

Lemma cacheFirst_hit request cached w :
  stored STATIC_CACHE (url request) w = Some cached →
  cacheFirst request w =
    (Fulfilled cached,
     add_console (console_log "[Service Worker] Serving from cache:" (StrArg (url request)))
                 (caches_open STATIC_CACHE w).2).
Proof.
  intros Hhit. unfold cacheFirst, and_then at 1 2, cache_match.
  change (caches_open STATIC_CACHE w) with
    (Fulfilled STATIC_CACHE, (caches_open STATIC_CACHE w).2).
  cbv beta iota. rewrite stored_caches_open, Hhit. reflexivity.
Qed.

Lemma cacheFirst_miss_resolved request response w :
  stored STATIC_CACHE (url request) w = None →
  network (fetched w) request = Fulfilled response →
  cacheFirst request w =
    (Fulfilled response,
     (keep_copy request response
        (add_fetched (request, Fulfilled response) (caches_open STATIC_CACHE w).2)).2).
Proof.
  intros Hmiss Hnet. unfold cacheFirst, and_then at 1 2, cache_match.
  change (caches_open STATIC_CACHE w) with
    (Fulfilled STATIC_CACHE, (caches_open STATIC_CACHE w).2).
  cbv beta iota. rewrite stored_caches_open, Hmiss.
  unfold catch, and_then at 1, fetch.
  rewrite caches_open_fetched, Hnet. cbv beta iota zeta.
  fold (keep_copy request response). unfold and_then.
  destruct (keep_copy request response _) as [[[]|e] w'] eqn:Hkeep; [done|].
  pose proof (keep_copy_fulfils request response
    (add_fetched (request, Fulfilled response) (caches_open STATIC_CACHE w).2)) as Hf.
  rewrite Hkeep in Hf. discriminate.
Qed.

Lemma cacheFirst_miss_rejected request error w :
  stored STATIC_CACHE (url request) w = None →
  network (fetched w) request = Rejected error →
  ∃ w', cacheFirst request w =
    (Fulfilled (default offline_response (stored STATIC_CACHE "/offline.html" w)), w') ∧
    fetched w' = fetched w ++ [(request, Rejected error)] ∧
    ∀ cache key, stored cache key w' = stored cache key w.
Proof.
  intros Hmiss Hnet. unfold cacheFirst, and_then at 1 2, cache_match.
  change (caches_open STATIC_CACHE w) with
    (Fulfilled STATIC_CACHE, (caches_open STATIC_CACHE w).2).
  cbv beta iota. rewrite stored_caches_open, Hmiss.
  unfold catch, and_then at 1, fetch.
  rewrite caches_open_fetched, Hnet. cbv beta iota zeta.
  unfold and_then, log_error, cache_match.
  set (w1 := add_console _ (add_fetched _ _)).
  change (caches_open STATIC_CACHE w1) with
    (Fulfilled STATIC_CACHE, (caches_open STATIC_CACHE w1).2).
  cbv beta iota.
  assert (Hsame : ∀ cache key,
    stored cache key (caches_open STATIC_CACHE w1).2 = stored cache key w).
  { intros. rewrite stored_caches_open. subst w1. unfold stored; simpl.
    fold (stored cache key (caches_open STATIC_CACHE w).2).
    apply stored_caches_open. }
  assert (Hlog : fetched (caches_open STATIC_CACHE w1).2 =
                 fetched w ++ [(request, Rejected error)]).
  { rewrite caches_open_fetched. subst w1.
    unfold add_console, add_fetched; cbn [fetched].
    by rewrite caches_open_fetched. }
  rewrite Hsame.
  exists (caches_open STATIC_CACHE w1).2. split; [|done].
  by destruct (stored STATIC_CACHE "/offline.html" w).
Qed.

Lemma networkFirst_resolved request response w :
  network (fetched w) request = Fulfilled response →
  networkFirst request w =
    (Fulfilled response,
     (keep_copy request response (add_fetched (request, Fulfilled response) w)).2).
Proof.
  intros Hnet. unfold networkFirst, catch, and_then at 1, fetch.
  rewrite Hnet. cbv beta iota zeta.
  fold (keep_copy request response). unfold and_then.
  destruct (keep_copy request response _) as [[[]|e] w'] eqn:Hkeep; [done|].
  pose proof (keep_copy_fulfils request response
    (add_fetched (request, Fulfilled response) w)) as Hf.
  rewrite Hkeep in Hf. discriminate.
Qed.

Lemma networkFirst_rejected request error w :
  network (fetched w) request = Rejected error →
  ∃ w', networkFirst request w =
    (match matching DYNAMIC_CACHE request w with
     | Some cached => Fulfilled cached
     | None => Rejected error
     end, w') ∧
    fetched w' = fetched w ++ [(request, Rejected error)] ∧
    ∀ cache key, stored cache key w' = stored cache key w.
Proof.
  intros Hnet. unfold networkFirst, catch, and_then at 1, fetch.
  rewrite Hnet. cbv beta iota zeta.
  unfold and_then, log, cache_match_request.
  set (w1 := add_console _ (add_fetched _ _)).
  change (caches_open DYNAMIC_CACHE w1) with
    (Fulfilled DYNAMIC_CACHE, (caches_open DYNAMIC_CACHE w1).2).
  cbv beta iota.
  assert (Hsame : ∀ cache key,
    stored cache key (caches_open DYNAMIC_CACHE w1).2 = stored cache key w).
  { intros. by rewrite stored_caches_open. }
  assert (Hmatch : matching DYNAMIC_CACHE request (caches_open DYNAMIC_CACHE w1).2
                   = matching DYNAMIC_CACHE request w).
  { unfold matching. by rewrite Hsame. }
  rewrite Hmatch.
  exists (caches_open DYNAMIC_CACHE w1).2. split; [|split; [|done]].
  - by destruct (matching DYNAMIC_CACHE request w).
  - by rewrite caches_open_fetched.
Qed.

Lemma DYNAMIC_not_STATIC : DYNAMIC_CACHE ≠ STATIC_CACHE.
Proof. discriminate. Qed.

Lemma stored_add_fetched cache key e w :
  stored cache key (add_fetched e w) = stored cache key w.
Proof. reflexivity. Qed.

(** Cache-first never changes what the static partition holds, and on a
    miss it makes exactly one fetch. *)
Lemma cacheFirst_static_unchanged request w key :
  stored STATIC_CACHE key (cacheFirst request w).2 = stored STATIC_CACHE key w.
Proof.
  destruct (stored STATIC_CACHE (url request) w) as [cached|] eqn:Hs.
  - rewrite (cacheFirst_hit _ _ _ Hs). apply stored_caches_open.
  - destruct (network (fetched w) request) as [response|error] eqn:Hnet.
    + rewrite (cacheFirst_miss_resolved _ _ _ Hs Hnet). cbn [snd].
      rewrite keep_copy_stored, stored_add_fetched, stored_caches_open.
      apply decide_False. intros (_ & _ & Hname & _). by apply DYNAMIC_not_STATIC.
    + destruct (cacheFirst_miss_rejected _ _ _ Hs Hnet) as (w' & -> & _ & Hsame).
      apply Hsame.
Qed.

Lemma cacheFirst_miss_fetches request w :
  stored STATIC_CACHE (url request) w = None →
  fetched (cacheFirst request w).2 = fetched w ++ [(request, network (fetched w) request)].
Proof.
  intros Hs. destruct (network (fetched w) request) as [response|error] eqn:Hnet.
  - rewrite (cacheFirst_miss_resolved _ _ _ Hs Hnet). cbn [snd].
    rewrite keep_copy_fetched. unfold add_fetched; cbn [fetched].
    by rewrite caches_open_fetched.
  - by destruct (cacheFirst_miss_rejected _ _ _ Hs Hnet) as (w' & -> & Hlog & _).
Qed.

(** The response of cache-first is a function of the static partition and
    of the network alone. *)
Lemma cacheFirst_reads_static_only request v w :
  fetched v = fetched w →
  (∀ key, stored STATIC_CACHE key v = stored STATIC_CACHE key w) →
  (cacheFirst request v).1 = (cacheFirst request w).1.
Proof.
  intros Hlog Hstatic.
  destruct (stored STATIC_CACHE (url request) w) as [cached|] eqn:Hs.
  - rewrite (cacheFirst_hit _ _ w Hs), (cacheFirst_hit _ cached v); [done|].
    by rewrite Hstatic.
  - assert (Hv : stored STATIC_CACHE (url request) v = None) by by rewrite Hstatic.
    destruct (network (fetched w) request) as [response|error] eqn:Hnet.
    + rewrite (cacheFirst_miss_resolved _ _ w Hs Hnet).
      rewrite (cacheFirst_miss_resolved _ response v Hv); [done|].
      by rewrite Hlog.
    + destruct (cacheFirst_miss_rejected _ _ w Hs Hnet) as (w' & -> & _).
      destruct (cacheFirst_miss_rejected _ error v Hv) as (v' & -> & _).
      { by rewrite Hlog. }
      cbn [fst]. by rewrite Hstatic.
Qed.

(** *** The install listener *)

(** The promise the install listener hands to [event.waitUntil] is
    fulfilled whatever the network does: the handler at the end of the
    chain turns every rejection into a console line. *)
Lemma install_listener_never_rejects w :
  (install_listener w).1 = Fulfilled tt.
Proof.
  unfold install_listener, and_then at 1, log at 1, catch. cbv beta iota.
  destruct (and_then _ _ _) as [[[]|error] w']; done.
Qed.

(** The dynamic entry of a request after a miss whose fetch resolved. *)
Lemma cacheFirst_miss_copy request response w :
  stored STATIC_CACHE (url request) w = None →
  network (fetched w) request = Fulfilled response →
  stored DYNAMIC_CACHE (url request) (cacheFirst request w).2 =
    (if ok response && cache_admits request response then Some response
     else stored DYNAMIC_CACHE (url request) w).
Proof.
  intros Hs Hnet. rewrite (cacheFirst_miss_resolved _ _ _ Hs Hnet). cbn [snd].
  rewrite keep_copy_stored, stored_add_fetched, stored_caches_open.
  destruct (ok response), (cache_admits request response); cbn [andb].
  - by rewrite decide_True.
  - by rewrite decide_False by (by intros (_ & ? & _)).
  - by rewrite decide_False by (by intros [? _]).
  - by rewrite decide_False by (by intros [? _]).
Qed.

(** *** Claims on the fetch strategies *)

(** C4 (as amended): network-first always starts with one live fetch.  When
    the fetch resolves, its response is returned whatever the dynamic
    partition holds, and a copy replaces the dynamic partition's entry
    exactly when the response is ok and the cache takes it (the request is
    a GET and the status is not 206); any other response is returned and
    leaves the entry as it was.  When the fetch rejects, the copy that
    matches the request in the dynamic partition is returned if there is
    one, which takes a GET request, and otherwise the rejection is passed
    on to the caller. *)
Theorem networkFirst_outcomes request w :
  let r := networkFirst request w in
  fetched r.2 = fetched w ++ [(request, network (fetched w) request)] ∧
  match network (fetched w) request with
  | Fulfilled response =>
      r.1 = Fulfilled response ∧
      stored DYNAMIC_CACHE (url request) r.2 =
        (if ok response && cache_admits request response then Some response
         else stored DYNAMIC_CACHE (url request) w)
  | Rejected error =>
      r.1 = match matching DYNAMIC_CACHE request w with
            | Some cached => Fulfilled cached
            | None => Rejected error
            end
  end.
Proof.
  intros r; subst r.
  destruct (network (fetched w) request) as [response|error] eqn:Hnet.
  - rewrite (networkFirst_resolved _ _ _ Hnet). cbn [fst snd].
    rewrite keep_copy_fetched, keep_copy_stored, stored_add_fetched.
    split; [done|split; [done|]].
    destruct (ok response), (cache_admits request response); cbn [andb].
    + by rewrite decide_True.
    + by rewrite decide_False by (by intros (_ & ? & _)).
    + by rewrite decide_False by (by intros [? _]).
    + by rewrite decide_False by (by intros [? _]).
  - by destruct (networkFirst_rejected _ _ _ Hnet) as (w' & -> & Hlog & _).
Qed.


(** C6: when the request misses the static partition and its fetch
    rejects, cache-first fulfils, with the static partition's entry for
    /offline.html if there is one and with a synthesized response of
    status 503 otherwise; the promise it returns is never rejected. *)
Theorem cacheFirst_offline_fallback request error w :
  stored STATIC_CACHE (url request) w = None →
  network (fetched w) request = Rejected error →
  (cacheFirst request w).1 =
    match stored STATIC_CACHE "/offline.html" w with
    | Some offlinePage => Fulfilled offlinePage
    | None => Fulfilled offline_response
    end ∧
  status offline_response = 503%N ∧
  ∀ reason, (cacheFirst request w).1 ≠ Rejected reason.
Proof.
  intros Hs Hnet.
  destruct (cacheFirst_miss_rejected _ _ _ Hs Hnet) as (w' & -> & _).
  cbn [fst]. by destruct (stored STATIC_CACHE "/offline.html" w).
Qed.

(** C10 (as amended): cache-first reads the static partition only.  For a
    request that misses the static partition, the first run leaves the
    static partition as it found it, fetches, and writes the fetched
    response into the dynamic partition exactly when that response is ok
    and the cache takes it (a GET request, a status other than 206).  The
    repeat of the request fetches again; it is answered with what that
    fetch brings, or with the offline fallback of the static partition when
    that fetch rejects, and never with the copy in the dynamic partition:
    its response is the same in every world with the same static partition
    and fetch history, whatever the dynamic partition holds there. *)
Theorem cacheFirst_never_serves_dynamic_copy request w :
  stored STATIC_CACHE (url request) w = None →
  let w1 := (cacheFirst request w).2 in
  let r2 := cacheFirst request w1 in
  (∀ key, stored STATIC_CACHE key w1 = stored STATIC_CACHE key w) ∧
  fetched w1 = fetched w ++ [(request, network (fetched w) request)] ∧
  (∀ response, network (fetched w) request = Fulfilled response →
     stored DYNAMIC_CACHE (url request) w1 =
       (if ok response && cache_admits request response then Some response
        else stored DYNAMIC_CACHE (url request) w)) ∧
  fetched r2.2 = fetched w1 ++ [(request, network (fetched w1) request)] ∧
  r2.1 = match network (fetched w1) request with
         | Fulfilled again => Fulfilled again
         | Rejected _ =>
             Fulfilled (default offline_response (stored STATIC_CACHE "/offline.html" w))
         end ∧
  ∀ v, fetched v = fetched w1 →
       (∀ key, stored STATIC_CACHE key v = stored STATIC_CACHE key w1) →
       (cacheFirst request v).1 = r2.1.
Proof.
  intros Hs w1 r2.
  assert (Hs1 : stored STATIC_CACHE (url request) w1 = None).
  { subst w1. by rewrite cacheFirst_static_unchanged. }
  split; [intros; apply cacheFirst_static_unchanged|].
  split; [by apply cacheFirst_miss_fetches|].
  split; [intros response Hnet; by apply cacheFirst_miss_copy|].
  split; [by apply cacheFirst_miss_fetches|].
  split; [|intros v Hlog Hstatic; by apply cacheFirst_reads_static_only].
  subst r2. destruct (network (fetched w1) request) as [again|error] eqn:Hnet.
  - by rewrite (cacheFirst_miss_resolved _ _ _ Hs1 Hnet).
  - destruct (cacheFirst_miss_rejected _ _ _ Hs1 Hnet) as (w' & -> & _).
    cbn [fst]. subst w1. by rewrite cacheFirst_static_unchanged.
Qed.

(** *** The fetch listener *)

Lemma prefix_spec search s :
  String.prefix search s = true ↔ ∃ after, s = search +:+ after.
Proof.
  revert s. induction search as [|a search IH]; intros s.
  - destruct s; simpl; split; eauto.
  - destruct s as [|b s]; simpl.
    + split; [done|]. by intros [after ?].
    + destruct (Ascii.ascii_dec a b) as [->|Hab].
      * rewrite IH. split.
        -- intros [after ->]. by exists after.
        -- intros [after [= ->]]. by exists after.
      * split; [done|]. intros [after [= ? _]]. done.
Qed.

Lemma includes_spec s search : includes s search = true ↔ occurs_in search s.
Proof.
  unfold occurs_in. induction s as [|a s IH]; cbn [includes].
  - rewrite orb_false_r, prefix_spec. split.
    + intros [after ->]. by exists "", after.
    + intros (before & after & Heq). destruct before as [|? ?]; [|done].
      by exists after.
  - rewrite orb_true_iff, prefix_spec, IH. split.
    + intros [[after ->]|(before & after & ->)].
      * by exists "", after.
      * by exists (String a before), after.
    + intros (before & after & Heq). destruct before as [|b before].
      * left. by exists after.
      * right. exists before, after. by injection Heq.
Qed.

Lemma includes_false s search : includes s search = false ↔ ¬ occurs_in search s.
Proof. rewrite <- includes_spec. by destruct (includes s search). Qed.

(** The fetch listener as it is written: it leaves a request to the
    browser exactly when its origin is not the worker's and its URL
    contains neither of the two allow-listed host names,
    cdnjs.cloudflare.com and fonts.googleapis.com, anywhere in it; a
    request it handles goes to network-first when its URL contains /api/
    and to cache-first otherwise. *)
Theorem fetch_listener_routing request :
  let parsed := new_URL (url request) in
  (fetch_listener request = None ↔
     origin parsed ≠ location_origin ∧
     ¬ occurs_in "cdnjs.cloudflare.com" (href parsed) ∧
     ¬ occurs_in "fonts.googleapis.com" (href parsed)) ∧
  (∀ s, fetch_listener request = Some s →
     (occurs_in "/api/" (url request) →
        s = NetworkFirst ∧ respondWith request = Some (networkFirst request)) ∧
     (¬ occurs_in "/api/" (url request) →
        s = CacheFirst ∧ respondWith request = Some (cacheFirst request))).
Proof.
  intros parsed. unfold respondWith, fetch_listener. fold parsed.
  pose proof (includes_spec (href parsed) "cdnjs.cloudflare.com") as Hcdn.
  pose proof (includes_spec (href parsed) "fonts.googleapis.com") as Hfonts.
  pose proof (includes_spec (url request) "/api/") as Hapi.
  destruct (String.eqb_spec (origin parsed) location_origin) as [Ho|Ho];
    destruct (includes (href parsed) "cdnjs.cloudflare.com"),
             (includes (href parsed) "fonts.googleapis.com"),
             (includes (url request) "/api/");
    cbn; (split; [split; [intros ?|intros (?&?&?)]|intros s ?; simplify_eq; cbn]);
    propositional.
Qed.

(** *** The activate listener *)

Lemma delete_old_cache_run name w :
  (log "[Service Worker] Deleting old cache:" (StrArg name) ;; caches_delete name) w =
    (Fulfilled (bool_decide (is_Some (caches w !! name))),
     set_caches (delete name)
       (add_console (console_log "[Service Worker] Deleting old cache:" (StrArg name)) w)).
Proof. reflexivity. Qed.

Lemma Promise_all_deletes names w :
  ∃ results w',
    Promise_all
      ((λ name,
          log "[Service Worker] Deleting old cache:" (StrArg name) ;;
          caches_delete name) <$> names) w = (Fulfilled results, w') ∧
    caches w' = foldl (λ m name, delete name m) (caches w) names ∧
    console w' =
      console w ++
      ((λ name, console_log "[Service Worker] Deleting old cache:" (StrArg name)) <$> names) ∧
    uploads w' = uploads w ∧ fetched w' = fetched w.
Proof.
  revert w. induction names as [|name names IH]; intros w.
  - exists [], w. simpl. by rewrite app_nil_r.
  - cbn [fmap list_fmap Promise_all].
    unfold and_then at 1. rewrite delete_old_cache_run.
    set (w1 := set_caches _ _).
    destruct (IH w1) as (results & w' & Hrun & Hcaches & Hconsole & Hup & Hlog).
    unfold and_then at 1. rewrite Hrun. eexists _, w'. split; [done|].
    rewrite Hcaches, Hconsole, Hup, Hlog. subst w1.
    unfold set_caches, add_console. cbn [caches console uploads fetched foldl].
    by rewrite <- app_assoc.
Qed.

Lemma lookup_foldl_delete {V} (m : gmap string V) names name :
  foldl (λ m name, delete name m) m names !! name =
    if decide (name ∈ names) then None else m !! name.
Proof.
  revert m. induction names as [|n names IH]; intros m; cbn [foldl].
  - rewrite decide_False; [done|]. by intros ?%elem_of_nil.
  - rewrite IH. destruct (decide (name ∈ names)) as [Hin|Hin].
    + rewrite decide_True; [done|]. by right.
    + destruct (decide (n = name)) as [->|Hne].
      * rewrite decide_True by left. apply lookup_delete_eq.
      * rewrite decide_False, lookup_delete_ne; [done..|].
        intros [?|?]%elem_of_cons; congruence.
Qed.

Lemma elem_of_keys {V} (m : gmap string V) name :
  name ∈ (map_to_list m).*1 ↔ is_Some (m !! name).
Proof.
  rewrite list_elem_of_fmap. split.
  - intros ([n x] & -> & Hin). apply elem_of_map_to_list in Hin. by exists x.
  - intros [x Hx]. exists (name, x). split; [done|]. by apply elem_of_map_to_list.
Qed.

Lemma activate_listener_run w :
  ∃ w', activate_listener w = (Fulfilled tt, w') ∧
    caches w' =
      foldl (λ m name, delete name m) (caches w)
            (old_caches (map_to_list (caches w)).*1) ∧
    console w' =
      console w ++
      [console_log "[Service Worker] Activating..." NoArg] ++
      ((λ name, console_log "[Service Worker] Deleting old cache:" (StrArg name))
         <$> old_caches (map_to_list (caches w)).*1) ++
      [console_log "[Service Worker] Activation complete" NoArg] ∧
    uploads w' = uploads w ∧ fetched w' = fetched w ∧ clients_claimed w' = true.
Proof.
  unfold activate_listener, and_then at 1 2 3, log at 1, caches_keys.
  set (w1 := add_console _ w).
  destruct (Promise_all_deletes (old_caches (map_to_list (caches w1)).*1) w1)
    as (results & w' & Hrun & Hcaches & Hconsole & Hup & Hlog).
  cbv beta iota. rewrite Hrun. cbv beta iota.
  unfold and_then, log, clients_claim. eexists. split; [done|].
  cbn. rewrite Hcaches, Hconsole, Hup, Hlog. subst w1. cbn.
  by rewrite <- !app_assoc.
Qed.

Lemma activate_listener_lookup w name :
  caches (activate_listener w).2 !! name =
    if decide (name = STATIC_CACHE ∨ name = DYNAMIC_CACHE)
    then caches w !! name
    else None.
Proof.
  destruct (activate_listener_run w) as (w' & -> & Hcaches & _).
  cbn [snd]. rewrite Hcaches, lookup_foldl_delete.
  destruct (decide (name ∈ old_caches (map_to_list (caches w)).*1)) as [Hin|Hnin].
  - apply list_elem_of_filter in Hin as [[Hs Hd] _].
    rewrite decide_False; [done|propositional].
  - destruct (decide (name = STATIC_CACHE ∨ name = DYNAMIC_CACHE)) as [Hcur|Hold]; [done|].
    destruct (caches w !! name) as [c|] eqn:Hname; [|done].
    destruct Hnin. apply list_elem_of_filter. split; [propositional|].
    apply elem_of_keys. by exists c.
Qed.

(** C7: after the activate listener has run, a cache named like the
    current static or the current dynamic partition is what it was before,
    and a cache of any other name is gone; the promise handed to
    [event.waitUntil] is fulfilled. *)
Theorem activate_deletes_old_caches_only w name :
  (activate_listener w).1 = Fulfilled tt ∧
  caches (activate_listener w).2 !! name =
    if decide (name = STATIC_CACHE ∨ name = DYNAMIC_CACHE)
    then caches w !! name
    else None.
Proof.
  split; [|apply activate_listener_lookup].
  by destruct (activate_listener_run w) as (w' & -> & _).
Qed.

(** C8: when the activate listener runs again on the world its first run
    left, it hands no name to [caches.delete], its promise is fulfilled,
    cache storage is left unchanged, and the console gets the two
    lifecycle lines and no deletion line. *)
Theorem activate_twice_deletes_nothing w :
  let w1 := (activate_listener w).2 in
  let r := activate_listener w1 in
  old_caches (map_to_list (caches w1)).*1 = [] ∧
  r.1 = Fulfilled tt ∧
  caches r.2 = caches w1 ∧
  console r.2 =
    console w1 ++
    [console_log "[Service Worker] Activating..." NoArg;
     console_log "[Service Worker] Activation complete" NoArg].
Proof.
  intros w1 r.
  assert (Hnone : old_caches (map_to_list (caches w1)).*1 = []).
  { unfold old_caches.
    destruct (filter _ _) as [|name rest] eqn:Hfilter; [done|].
    assert (Hin : name ∈ filter (λ name, name ≠ STATIC_CACHE ∧ name ≠ DYNAMIC_CACHE)
                               (map_to_list (caches w1)).*1).
    { rewrite Hfilter. left. }
    apply list_elem_of_filter in Hin as [[Hs Hd] [c Hc]%elem_of_keys].
    subst w1. rewrite activate_listener_lookup, decide_False in Hc; [done|propositional]. }
  split; [done|].
  subst r. destruct (activate_listener_run w1) as (w2 & -> & Hcaches & Hconsole & _).
  cbn [fst snd]. rewrite Hcaches, Hconsole, Hnone. done.
Qed.

(** *** The upload drain *)

Lemma filter_ext_elem {A} (P Q : A → Prop) `{!∀ x, Decision (P x)} `{!∀ x, Decision (Q x)}
    (l : list A) :
  (∀ x, x ∈ l → P x ↔ Q x) → filter P l = filter Q l.
Proof.
  induction l as [|x l IH]; intros Hext; [done|].
  rewrite !filter_cons.
  assert (Hl : filter P l = filter Q l).
  { apply IH. intros y Hy. apply Hext. by right. }
  destruct (decide (P x)) as [Hp|Hp]; destruct (decide (Q x)) as [Hq|Hq];
    rewrite ?Hl; try done; destruct (Hext x); try left; propositional.
Qed.

Lemma NoDup_key_inj {A B} (f : A → B) (l : list A) x y :
  NoDup (f <$> l) → x ∈ l → y ∈ l → f x = f y → x = y.
Proof.
  induction l as [|z l IH]; intros Hnd Hx Hy Heq; [by apply elem_of_nil in Hx|].
  rewrite fmap_cons in Hnd. apply NoDup_cons in Hnd as [Hz Hnd].
  apply elem_of_cons in Hx as [->|Hx]; apply elem_of_cons in Hy as [->|Hy];
    [done| | |by apply IH].
  - destruct Hz. rewrite Heq. by apply list_elem_of_fmap_2.
  - destruct Hz. rewrite <- Heq. by apply list_elem_of_fmap_2.
Qed.

Lemma filter_eq_singleton {A} `{!EqDecision A} (l : list A) x :
  NoDup l → x ∈ l → filter (λ y, y = x) l = [x].
Proof.
  induction l as [|z l IH]; intros Hnd Hx; [by apply elem_of_nil in Hx|].
  apply NoDup_cons in Hnd as [Hz Hnd]. rewrite filter_cons.
  apply elem_of_cons in Hx as [->|Hx].
  - rewrite decide_True by done. f_equal.
    destruct (filter _ l) as [|y rest] eqn:Hf; [done|].
    assert (Hy : y ∈ filter (λ y, y = z) l) by (rewrite Hf; left).
    apply list_elem_of_filter in Hy as [-> Hy]. done.
  - rewrite decide_False; [by apply IH|]. intros ->. done.
Qed.

(** One turn of the loop, by what the network and the store answer. *)
Lemma upload_each_cons upload rest w :
  upload_each tt (upload :: rest) w =
    let w1 := add_fetched (upload_request upload,
                           network (fetched w) (upload_request upload)) w in
    match network (fetched w) (upload_request upload) with
    | Rejected error => (Rejected error, w1)
    | Fulfilled response =>
        if ok response then
          match indexedDB (IdbDelete (upload_id upload)) with
          | Some error => (Rejected error, w1)
          | None =>
              upload_each tt rest
                (add_console
                   (console_log "[Service Worker] Video uploaded:"
                      (NumArg (upload_id upload)))
                   (set_uploads (filter (λ u, upload_id u ≠ upload_id upload)) w1))
          end
        else upload_each tt rest w1
    end.
Proof.
  cbn [upload_each]. unfold and_then at 1, fetch. cbv zeta.
  destruct (network (fetched w) (upload_request upload)) as [response|error]; [|done].
  cbv beta iota. destruct (ok response); [|done].
  unfold and_then, removePendingUpload, log.
  destruct (indexedDB (IdbDelete (upload_id upload))); done.
Qed.

Lemma filter_all {A} (P : A → Prop) `{!∀ x, Decision (P x)} (l : list A) :
  (∀ x, x ∈ l → P x) → filter P l = l.
Proof.
  induction l as [|x l IH]; intros Hall; [done|].
  rewrite filter_cons_True by (apply Hall; left).
  f_equal. apply IH. intros y Hy. apply Hall. by right.
Qed.

(** What one run of the loop does, whatever the network and the store
    answer: the fetches it made are for the pending records in order, and
    the records it took from the store are those whose fetch got an ok
    response and whose delete request succeeded. *)
Lemma upload_each_invariant pending w :
  ∃ (new : list (Request * Settled Response)) (removed_ids : list N),
    fetched (upload_each tt pending w).2 = fetched w ++ new ∧
    uploads (upload_each tt pending w).2 =
      filter (λ u, upload_id u ∉ removed_ids) (uploads w) ∧
    ∀ key, key ∈ removed_ids ↔
      ∃ i v response,
        pending !! i = Some v ∧ upload_id v = key ∧
        new !! i = Some (upload_request v, Fulfilled response) ∧
        ok response = true ∧
        indexedDB (IdbDelete key) = None.
Proof.
  revert w. induction pending as [|upload rest IH]; intros w.
  - exists [], []. cbn. rewrite app_nil_r. split; [done|]. split.
    + symmetry. apply filter_all. intros u _. apply not_elem_of_nil.
    + intros key. split; [by intros ?%elem_of_nil|]. by intros (i & v & r & [=] & _).
  - rewrite upload_each_cons. cbv zeta.
    set (request := upload_request upload).
    set (outcome := network (fetched w) request).
    set (w1 := add_fetched (request, outcome) w).
    assert (Hstop : ∀ error,
      (outcome = Rejected error ∨
       ∃ response, outcome = Fulfilled response ∧ ok response = true ∧
                   indexedDB (IdbDelete (upload_id upload)) = Some error) →
      ∃ (new : list (Request * Settled Response)) (removed_ids : list N),
        fetched (@pair (Settled unit) World (Rejected error) w1).2 = fetched w ++ new ∧
        uploads (@pair (Settled unit) World (Rejected error) w1).2 =
          filter (λ u, upload_id u ∉ removed_ids) (uploads w) ∧
        ∀ key, key ∈ removed_ids ↔
          ∃ i v response,
            (upload :: rest) !! i = Some v ∧ upload_id v = key ∧
            new !! i = Some (upload_request v, Fulfilled response) ∧
            ok response = true ∧
            indexedDB (IdbDelete key) = None).
    { intros error Hwhy. exists [(request, outcome)], []. cbn. split; [done|]. split.
      - symmetry. apply filter_all. intros u _. apply not_elem_of_nil.
      - intros key. split; [by intros ?%elem_of_nil|].
        intros (i & v & r & Hi & Hkey & Hnew & Hok & Hdel).
        destruct i as [|i]; [|done]. cbn in Hi, Hnew. simplify_eq.
        destruct Hwhy as [Hrej|(r' & Hful & _ & Hfail)]; congruence. }
    destruct outcome as [response|error] eqn:Hout; [|by eapply Hstop; left].
    destruct (ok response) eqn:Hok.
    + destruct (indexedDB (IdbDelete (upload_id upload))) as [error|] eqn:Hdel.
      { eapply Hstop. right. eauto. }
      set (w2 := add_console _ _).
      destruct (IH w2) as (new & ids & Hlog & Hup & Hids).
      exists ((request, Fulfilled response) :: new), (upload_id upload :: ids).
      split; [|split].
      * rewrite Hlog. subst w2 w1. cbn. by rewrite <- app_assoc.
      * rewrite Hup. subst w2 w1. cbn [uploads add_console set_uploads add_fetched].
        rewrite list_filter_filter. apply list_filter_iff. intros u.
        rewrite not_elem_of_cons. propositional.
      * intros key. rewrite elem_of_cons, Hids. split.
        -- intros [->|(i & v & r & Hi & Hkey & Hnew & Hokr & Hd)].
           ++ by exists 0, upload, response.
           ++ by exists (S i), v, r.
        -- intros (i & v & r & Hi & Hkey & Hnew & Hokr & Hd).
           destruct i as [|i]; cbn in Hi, Hnew.
           ++ left. by simplify_eq.
           ++ right. by exists i, v, r.
    + destruct (IH w1) as (new & ids & Hlog & Hup & Hids).
      exists ((request, Fulfilled response) :: new), ids.
      split; [|split].
      * rewrite Hlog. subst w1. cbn. by rewrite <- app_assoc.
      * by rewrite Hup.
      * intros key. rewrite Hids. split.
        -- intros (i & v & r & Hi & Hkey & Hnew & Hokr & Hd). by exists (S i), v, r.
        -- intros (i & v & r & Hi & Hkey & Hnew & Hokr & Hd).
           destruct i as [|i]; cbn in Hi, Hnew.
           ++ simplify_eq. congruence.
           ++ by exists i, v, r.
Qed.

(** The loop when every transfer is answered and every delete succeeds:
    it reaches the end of the list, and takes from the store the records
    whose response was ok. *)
Lemma upload_each_all_answered (delivered : PendingUpload → bool) pending w :
  (∀ key, indexedDB (IdbDelete key) = None) →
  (∀ history u, u ∈ pending →
     ∃ response, network history (upload_request u) = Fulfilled response ∧
                 ok response = delivered u) →
  ∃ new : list (Request * Settled Response),
    (upload_each tt pending w).1 = Fulfilled tt ∧
    fetched (upload_each tt pending w).2 = fetched w ++ new ∧
    new.*1 = upload_request <$> pending ∧
    uploads (upload_each tt pending w).2 =
      filter (λ u, upload_id u ∉ upload_id <$> filter (λ v, delivered v = true) pending)
             (uploads w).
Proof.
  intros Hdelete. revert w. induction pending as [|upload rest IH]; intros w Hnet.
  - exists []. cbn. rewrite app_nil_r. repeat split.
    symmetry. apply filter_all. intros u _. apply not_elem_of_nil.
  - rewrite upload_each_cons. cbv zeta.
    destruct (Hnet (fetched w) upload) as (response & -> & Hok); [left|].
    assert (Hrest : ∀ history u, u ∈ rest →
      ∃ response, network history (upload_request u) = Fulfilled response ∧
                  ok response = delivered u).
    { intros history u Hu. apply Hnet. by right. }
    rewrite Hok, Hdelete. destruct (delivered upload) eqn:Hdelivered.
    + set (w2 := add_console _ _).
      destruct (IH w2 Hrest) as (new & Hres & Hlog & Hreq & Hup).
      exists ((upload_request upload, Fulfilled response) :: new).
      split; [done|]. split; [|split].
      * rewrite Hlog. subst w2. cbn. by rewrite <- app_assoc.
      * cbn. by rewrite Hreq.
      * rewrite Hup. subst w2. cbn [uploads add_console set_uploads add_fetched].
        rewrite list_filter_filter, filter_cons_True by done.
        apply list_filter_iff. intros u. rewrite fmap_cons, not_elem_of_cons. propositional.
    + set (w1 := add_fetched _ _).
      destruct (IH w1 Hrest) as (new & Hres & Hlog & Hreq & Hup).
      exists ((upload_request upload, Fulfilled response) :: new).
      split; [done|]. split; [|split].
      * rewrite Hlog. subst w1. cbn. by rewrite <- app_assoc.
      * cbn. by rewrite Hreq.
      * rewrite Hup, filter_cons_False; [done|]. by rewrite Hdelivered.
Qed.

(** The drain around the loop: it never rejects; when the store cannot be
    opened or read nothing is fetched or removed, and otherwise the store
    and the fetch log are as the loop over the stored records left them. *)
Lemma uploadPendingVideos_run w :
  (uploadPendingVideos w).1 = Fulfilled tt ∧
  if decide (indexedDB IdbOpen = None ∧ indexedDB IdbGetAll = None)
  then fetched (uploadPendingVideos w).2 = fetched (upload_each tt (uploads w) w).2 ∧
       uploads (uploadPendingVideos w).2 = uploads (upload_each tt (uploads w) w).2
  else fetched (uploadPendingVideos w).2 = fetched w ∧
       uploads (uploadPendingVideos w).2 = uploads w.
Proof.
  unfold uploadPendingVideos, catch, and_then, openDatabase, getPendingUploads, log_error.
  destruct (indexedDB IdbOpen) as [e1|] eqn:Hopen.
  { rewrite decide_False by (by intros [? ?]). done. }
  cbn. destruct (indexedDB IdbGetAll) as [e2|] eqn:Hget.
  { rewrite decide_False by (by intros [? ?]). done. }
  rewrite decide_True by done.
  by destruct (upload_each tt (uploads w) w) as [[[]|e] w'].
Qed.

(** C2 (as amended): in one drain over a store with distinct keys, a
    pending record is removed from the store if and only if its transfer
    attempt returned success and the store's delete request for it
    succeeded; so no record is removed without a transfer of it that
    returned success. *)
Theorem removed_iff_transferred_and_deleted w u :
  NoDup (upload_id <$> uploads w) →
  u ∈ uploads w →
  let w' := (uploadPendingVideos w).2 in
  (u ∉ uploads w' ↔
     transfer_succeeded w w' u ∧ indexedDB (IdbDelete (upload_id u)) = None) ∧
  (u ∉ uploads w' → transfer_succeeded w w' u).
Proof.
  intros Hnd Hu w'.
  assert (Hiff : u ∉ uploads w' ↔
    transfer_succeeded w w' u ∧ indexedDB (IdbDelete (upload_id u)) = None);
    [|split; [done|by intros [? _]%Hiff]].
  subst w'. unfold transfer_succeeded, new_fetches.
  destruct (uploadPendingVideos_run w) as [_ Hrun].
  destruct (decide (indexedDB IdbOpen = None ∧ indexedDB IdbGetAll = None)) as [Hdb|Hdb];
    destruct Hrun as [-> ->].
  - destruct (upload_each_invariant (uploads w) w) as (new & ids & -> & -> & Hids).
    rewrite drop_app_length, list_elem_of_filter.
    split.
    + intros Hgone. destruct (decide (upload_id u ∈ ids)) as [Hin|Hnin]; [|propositional].
      apply Hids in Hin as (i & v & r & Hi & Hkey & Hnew & Hok & Hdel).
      assert (v = u) as ->.
      { apply (NoDup_key_inj upload_id (uploads w)); [done| |done..].
        by eapply list_elem_of_lookup_2. }
      split; [by exists i, r|done].
    + intros [(i & r & Hi & Hnew & Hok) Hdel] [Hnin _]. apply Hnin, Hids.
      by exists i, u, r.
  - rewrite drop_all. split; [done|]. by intros [(i & r & _ & [=] & _) _].
Qed.

(** *** More on the install listener *)


Lemma fetch_each_fails urls u w :
  u ∈ urls →
  (∀ history, transfer_fails (network history (GET u))) →
  ∃ error w',
    fetch_each urls w = (Rejected error, w') ∧
    caches w' = caches w ∧ uploads w' = uploads w ∧
    skipped_waiting w' = skipped_waiting w ∧ console w' = console w.
Proof.
  intros Hu Hfails. revert w. induction urls as [|v urls IH]; intros w.
  { by apply elem_of_nil in Hu. }
  cbn [fetch_each]. unfold and_then at 1, fetch. cbv zeta.
  destruct (network (fetched w) (GET v)) as [response|error] eqn:Hnet;
    [|by eexists _, _].
  cbv beta iota. destruct (ok response) eqn:Hok; [|by eexists _, _].
  apply elem_of_cons in Hu as [->|Hu].
  { specialize (Hfails (fetched w)). rewrite Hnet in Hfails. cbn in Hfails. congruence. }
  destruct (IH Hu (add_fetched (GET v, Fulfilled response) w))
    as (error & w' & Hrun & Hrest).
  unfold and_then. rewrite Hrun. by eexists _, _.
Qed.

Lemma lookup_foldl_insert (responses : list (string * Response)) (m : gmap string Response) key :
  foldl (λ m e, <[e.1 := e.2]> m) m responses !! key =
    match last (filter (λ e, e.1 = key) responses) with
    | Some e => Some e.2
    | None => m !! key
    end.
Proof.
  revert m. induction responses as [|[k r] responses IH]; intros m; [done|].
  cbn [foldl]. rewrite IH, filter_cons. cbn [fst snd].
  destruct (decide (k = key)) as [->|Hne].
  - rewrite last_cons, lookup_insert_eq.
    by destruct (last (filter _ responses)).
  - by rewrite lookup_insert_ne.
Qed.


(** The install listener, by how the fetches of [cache.addAll] went. *)
Lemma install_listener_run w :
  install_listener w =
    let w1 :=
      add_console (console_log "[Service Worker] Caching static assets" NoArg)
        (caches_open STATIC_CACHE
           (add_console (console_log "[Service Worker] Installing..." NoArg) w)).2 in
    match fetch_each STATIC_ASSETS w1 with
    | (Fulfilled responses, w2) =>
        (Fulfilled tt,
         (skipWaiting
            (add_console (console_log "[Service Worker] Installation complete" NoArg)
               (set_caches
                  (alter (λ entries, foldl (λ m e, <[e.1 := e.2]> m) entries responses)
                         STATIC_CACHE) w2))).2)
    | (Rejected error, w2) =>
        (Fulfilled tt,
         add_console
           (console_error "[Service Worker] Installation failed:" (ErrArg error)) w2)
    end.
Proof.
  unfold install_listener, cache_addAll, catch, log, log_error, caches_open.
  unfold and_then. cbn [snd]. cbv beta iota zeta.
  by destruct (fetch_each STATIC_ASSETS _) as [[responses|error] w2].
Qed.



(** X2: when some asset of the manifest cannot be fetched, whether its
    fetch rejects or its response is not ok, the install listener leaves
    every entry of the static partition as it was and does not call
    [skipWaiting]; it writes the failure to the console and its promise is
    fulfilled all the same. *)
Theorem install_failure_adds_nothing w asset :
  asset ∈ STATIC_ASSETS →
  (∀ history, transfer_fails (network history (GET asset))) →
  let r := install_listener w in
  r.1 = Fulfilled tt ∧
  skipped_waiting r.2 = skipped_waiting w ∧
  (∀ key, stored STATIC_CACHE key r.2 = stored STATIC_CACHE key w) ∧
  ∃ error,
    last (console r.2) =
      Some (console_error "[Service Worker] Installation failed:" (ErrArg error)).
Proof.
  intros Hasset Hfails r. subst r. rewrite install_listener_run. cbv zeta.
  set (w0 := add_console (console_log "[Service Worker] Installing..." NoArg) w).
  set (w1 := add_console _ _).
  destruct (fetch_each_fails STATIC_ASSETS asset w1 Hasset Hfails)
    as (error & w2 & -> & Hcaches & _ & Hskip & Hconsole).
  cbn [fst snd]. split; [done|]. split.
  { unfold add_console at 1; cbn [skipped_waiting]. rewrite Hskip. subst w1 w0.
    unfold add_console; cbn [skipped_waiting].
    unfold caches_open; cbn. by destruct (caches w !! STATIC_CACHE). }
  split.
  { intros key. unfold stored, add_console at 1; cbn [caches]. rewrite Hcaches.
    subst w1. unfold add_console at 1; cbn [caches].
    fold (stored STATIC_CACHE key (caches_open STATIC_CACHE w0).2).
    by rewrite stored_caches_open. }
  exists error. unfold add_console at 1; cbn [console]. by rewrite last_snoc.
Qed.

(** *** More on the fetch strategies *)

(** X3: when a request misses the static partition and its fetch resolves,
    cache-first returns the response as it came, also one that is not ok,
    and the dynamic partition gets a copy exactly when the response is ok
    and the cache takes it (a GET request, a status other than 206); for
    any other request or response the dynamic entry stays as it was. *)
Theorem cacheFirst_miss_outcomes request response w :
  stored STATIC_CACHE (url request) w = None →
  network (fetched w) request = Fulfilled response →
  let r := cacheFirst request w in
  r.1 = Fulfilled response ∧
  stored DYNAMIC_CACHE (url request) r.2 =
    (if ok response && cache_admits request response then Some response
     else stored DYNAMIC_CACHE (url request) w).
Proof.
  intros Hs Hnet r. subst r.
  rewrite (cacheFirst_miss_resolved _ _ _ Hs Hnet). cbn [fst snd].
  split; [done|].
  rewrite keep_copy_stored, stored_add_fetched, stored_caches_open.
  destruct (ok response), (cache_admits request response); cbn [andb].
  - by rewrite decide_True.
  - by rewrite decide_False by (by intros (_ & ? & _)).
  - by rewrite decide_False by (by intros [? _]).
  - by rewrite decide_False by (by intros [? _]).
Qed.

(** X4: whichever strategy handles a request, the only cache entry that
    can differ afterwards is the dynamic partition's entry for the URL of
    that request; every other entry of every cache is what it was. *)
Theorem strategies_touch_one_entry s request cache key w :
  (cache, key) ≠ (DYNAMIC_CACHE, url request) →
  stored cache key (strategy_handler s request w).2 = stored cache key w.
Proof.
  intros Hother.
  assert (Hkeep : ∀ response v,
    stored cache key (keep_copy request response v).2 = stored cache key v).
  { intros response v. rewrite keep_copy_stored. apply decide_False.
    intros (_ & _ & <- & <-). by destruct Hother. }
  destruct s; cbn [strategy_handler].
  - destruct (network (fetched w) request) as [response|error] eqn:Hnet.
    + rewrite (networkFirst_resolved _ _ _ Hnet). cbn [snd]. by rewrite Hkeep.
    + destruct (networkFirst_rejected _ _ _ Hnet) as (w' & -> & _ & Hsame).
      apply Hsame.
  - destruct (stored STATIC_CACHE (url request) w) as [cached|] eqn:Hs.
    + rewrite (cacheFirst_hit _ _ _ Hs). apply stored_caches_open.
    + destruct (network (fetched w) request) as [response|error] eqn:Hnet.
      * rewrite (cacheFirst_miss_resolved _ _ _ Hs Hnet). cbn [snd].
        by rewrite Hkeep, stored_add_fetched, stored_caches_open.
      * destruct (cacheFirst_miss_rejected _ _ _ Hs Hnet) as (w' & -> & _ & Hsame).
        apply Hsame.
Qed.

(** X5: the mirror round trip of network-first.  When a request got an ok
    response and the very next fetch of it rejects, the second call
    fulfils with the response of the first, provided the cache took that
    response (a GET request, a status other than 206); for a request that
    is not a GET nothing was mirrored and nothing matches, and the second
    call rejects with the network's error. *)
Theorem networkFirst_mirror_round_trip request response error w :
  network (fetched w) request = Fulfilled response →
  ok response = true →
  let w1 := (networkFirst request w).2 in
  network (fetched w1) request = Rejected error →
  (cache_admits request response = true →
   (networkFirst request w1).1 = Fulfilled response) ∧
  (method request ≠ "GET" →
   (networkFirst request w1).1 = Rejected error).
Proof.
  intros Hnet Hok w1 Hdown.
  destruct (networkFirst_rejected _ _ _ Hdown) as (w2 & -> & _).
  cbn [fst]. unfold matching. split.
  - intros Hadmits.
    assert (Hget : String.eqb (method request) "GET" = true).
    { unfold cache_admits in Hadmits. by apply andb_true_iff in Hadmits as [? _]. }
    rewrite Hget. subst w1. rewrite (networkFirst_resolved _ _ _ Hnet). cbn [snd].
    rewrite keep_copy_stored, decide_True; done.
  - intros Hpost. by apply String.eqb_neq in Hpost as ->.
Qed.

(** *** More on background sync *)

(** X6: [syncAlerts] makes exactly one fetch, a POST to /api/alerts/sync,
    and its promise is fulfilled whether that fetch resolves or rejects;
    it changes neither the caches nor the upload store. *)
Theorem syncAlerts_one_post w :
  let request := mkRequest "/api/alerts/sync" "POST" None in
  let r := syncAlerts w in
  r.1 = Fulfilled tt ∧
  fetched r.2 = fetched w ++ [(request, network (fetched w) request)] ∧
  caches r.2 = caches w ∧
  uploads r.2 = uploads w.
Proof.
  intros request r. subst r. unfold syncAlerts, catch, and_then, fetch. cbv zeta.
  fold request.
  destruct (network (fetched w) request) as [response|error]; [|done].
  cbv beta iota. by destruct (ok response).
Qed.

Lemma syncAlerts_fulfils w : (syncAlerts w).1 = Fulfilled tt.
Proof.
  unfold syncAlerts, catch, and_then, fetch. cbv zeta.
  destruct (network (fetched w) _) as [response|error]; [|done].
  cbv beta iota. by destruct (ok response).
Qed.

Lemma upload_each_frame pending w :
  caches (upload_each tt pending w).2 = caches w ∧
  ∃ new : list (Request * Settled Response),
    fetched (upload_each tt pending w).2 = fetched w ++ new ∧
    (length new ≤ length pending)%nat ∧
    new.*1 = upload_request <$> take (length new) pending.
Proof.
  revert w. induction pending as [|upload rest IH]; intros w.
  { split; [done|]. exists []. cbn. by rewrite app_nil_r. }
  rewrite upload_each_cons. cbv zeta.
  set (request := upload_request upload).
  set (outcome := network (fetched w) request).
  assert (Hstop : ∀ error : Error,
    let stopped := @pair (Settled unit) World (Rejected error)
                     (add_fetched (request, outcome) w) in
    caches stopped.2 = caches w ∧
    ∃ new : list (Request * Settled Response),
      fetched stopped.2 = fetched w ++ new ∧
      (length new ≤ length (upload :: rest))%nat ∧
      new.*1 = upload_request <$> take (length new) (upload :: rest)).
  { intros error. split; [done|]. exists [(request, outcome)]. cbn.
    split; [done|]. split; [lia|done]. }
  assert (Hgo : ∀ w1,
    caches w1 = caches w →
    fetched w1 = fetched w ++ [(request, outcome)] →
    caches (upload_each tt rest w1).2 = caches w ∧
    ∃ new : list (Request * Settled Response),
      fetched (upload_each tt rest w1).2 = fetched w ++ new ∧
      (length new ≤ length (upload :: rest))%nat ∧
      new.*1 = upload_request <$> take (length new) (upload :: rest)).
  { intros w1 Hc Hf. destruct (IH w1) as (Hcaches & new & Hlog & Hlen & Hreq).
    split; [by rewrite Hcaches|]. exists ((request, outcome) :: new).
    rewrite Hlog, Hf, <- app_assoc. split; [done|]. cbn. split; [lia|].
    by rewrite Hreq. }
  destruct outcome as [response|error] eqn:Hout; [|apply Hstop].
  destruct (ok response); [|by apply Hgo].
  destruct (indexedDB (IdbDelete (upload_id upload))); [apply Hstop|by apply Hgo].
Qed.

(** X7: the upload drain only ever removes.  Whatever the network and the
    store answer, its promise is fulfilled, the records left in the store
    are a sublist of those that were there, in the same order, and the
    caches are untouched. *)
Theorem drain_only_removes w :
  let r := uploadPendingVideos w in
  r.1 = Fulfilled tt ∧
  uploads r.2 `sublist_of` uploads w ∧
  caches r.2 = caches w.
Proof.
  intros r. subst r. split; [apply uploadPendingVideos_run|].
  unfold uploadPendingVideos, catch, and_then, openDatabase, getPendingUploads, log_error.
  destruct (indexedDB IdbOpen); [done|]. cbn.
  destruct (indexedDB IdbGetAll); [done|].
  destruct (upload_each_invariant (uploads w) w) as (new & ids & _ & Hup & _).
  destruct (upload_each_frame (uploads w) w) as [Hcaches _].
  destruct (upload_each tt (uploads w) w) as [[[]|e] w']; cbn in *;
    rewrite Hup; split; done || apply sublist_filter.
Qed.

(** X8: the drain posts the stored records one at a time in store order
    and never a record twice: the requests it made are the upload requests
    of an initial stretch of the stored records. *)
Theorem drain_posts_a_prefix w :
  let w' := (uploadPendingVideos w).2 in
  (length (new_fetches w w') ≤ length (uploads w))%nat ∧
  (new_fetches w w').*1 =
    upload_request <$> take (length (new_fetches w w')) (uploads w).
Proof.
  intros w'. subst w'. unfold new_fetches.
  destruct (uploadPendingVideos_run w) as [_ Hrun].
  destruct (decide (indexedDB IdbOpen = None ∧ indexedDB IdbGetAll = None));
    destruct Hrun as [-> _].
  - destruct (upload_each_frame (uploads w) w) as (_ & new & -> & Hlen & Hreq).
    by rewrite drop_app_length.
  - rewrite drop_all. cbn. split; [lia|done].
Qed.

(** X9: the sync listener never hands a rejected promise to
    [event.waitUntil], whatever the tag, the network and the store do; for
    a tag other than sync-alerts and upload-video it fetches nothing and
    leaves the store and the caches alone. *)
Theorem sync_listener_never_rejects tag w :
  let r := sync_listener tag w in
  r.1 = Fulfilled tt ∧
  (tag ≠ "sync-alerts" → tag ≠ "upload-video" →
   fetched r.2 = fetched w ∧ uploads r.2 = uploads w ∧ caches r.2 = caches w).
Proof.
  intros r. subst r. unfold sync_listener, and_then at 1, log at 1. cbv beta iota.
  destruct (String.eqb_spec tag "sync-alerts") as [->|Halerts].
  { split; [|done]. apply syncAlerts_fulfils. }
  destruct (String.eqb_spec tag "upload-video") as [->|Hupload].
  { split; [|done]. apply uploadPendingVideos_run. }
  done.
Qed.

Lemma filter_none {A} (P : A → Prop) `{!∀ x, Decision (P x)} (l : list A) :
  (∀ x, x ∈ l → ¬ P x) → filter P l = [].
Proof.
  induction l as [|x l IH]; intros Hnone; [done|].
  rewrite filter_cons_False by (apply Hnone; left).
  apply IH. intros y Hy. apply Hnone. by right.
Qed.

Lemma filter_drops_prefix {A B} `{!EqDecision B} (f : A → B) (l1 l2 : list A) :
  NoDup (f <$> (l1 ++ l2)) →
  filter (λ u, f u ∉ f <$> l1) (l1 ++ l2) = l2.
Proof.
  rewrite fmap_app. intros (_ & Hdisjoint & _)%NoDup_app.
  rewrite filter_app.
  rewrite filter_none.
  2:{ intros u Hu Hnin. apply Hnin. by apply list_elem_of_fmap_2. }
  rewrite filter_all; [done|].
  intros u Hu Hin. apply (Hdisjoint (f u) Hin). by apply list_elem_of_fmap_2.
Qed.

(** X10: when the store's requests succeed and every transfer gets an ok
    response, one drain posts every stored record, in store order, and
    leaves the store empty. *)
Theorem drain_delivers_everything w :
  (∀ r, indexedDB r = None) →
  (∀ history u, u ∈ uploads w →
     ∃ response, network history (upload_request u) = Fulfilled response ∧
                 ok response = true) →
  let w' := (uploadPendingVideos w).2 in
  uploads w' = [] ∧
  (new_fetches w w').*1 = upload_request <$> uploads w.
Proof.
  intros Hdb Hnet w'. subst w'. unfold new_fetches.
  destruct (uploadPendingVideos_run w) as [_ Hrun].
  rewrite decide_True in Hrun by by rewrite !Hdb. destruct Hrun as [-> ->].
  destruct (upload_each_all_answered (λ _, true) (uploads w) w)
    as (new & _ & -> & Hreq & ->); [by intros; apply Hdb|done|].
  rewrite drop_app_length. split; [|done].
  apply filter_none. intros u Hu Hnin. apply Hnin.
  apply list_elem_of_fmap_2. by apply list_elem_of_filter.
Qed.

Lemma upload_each_until_rejected before uK after error w :
  (∀ key, indexedDB (IdbDelete key) = None) →
  (∀ history u, u ∈ before →
     ∃ response, network history (upload_request u) = Fulfilled response ∧
                 ok response = true) →
  (∀ history, network history (upload_request uK) = Rejected error) →
  ∃ (new : list (Request * Settled Response)) w',
    upload_each tt (before ++ uK :: after) w = (Rejected error, w') ∧
    fetched w' = fetched w ++ new ∧
    new.*1 = upload_request <$> (before ++ [uK]) ∧
    uploads w' = filter (λ u, upload_id u ∉ upload_id <$> before) (uploads w).
Proof.
  intros Hdelete Hok Hrejected. revert w Hok.
  induction before as [|b before IH]; intros w Hok.
  - cbn [app]. rewrite upload_each_cons. cbv zeta. rewrite Hrejected.
    eexists [_], _. split; [done|]. cbn. split; [done|]. split; [done|].
    symmetry. apply filter_all. intros u _. apply not_elem_of_nil.
  - cbn [app]. rewrite upload_each_cons. cbv zeta.
    destruct (Hok (fetched w) b) as (response & -> & ->); [left|].
    rewrite Hdelete. set (w2 := add_console _ _).
    destruct (IH w2) as (new & w' & Hrun & Hlog & Hreq & Hup).
    { intros history u Hu. apply Hok. by right. }
    exists ((upload_request b, Fulfilled response) :: new), w'.
    split; [done|]. split; [|split].
    + rewrite Hlog. subst w2. cbn. by rewrite <- app_assoc.
    + cbn. by rewrite Hreq.
    + rewrite Hup. subst w2. cbn [uploads add_console set_uploads add_fetched].
      rewrite list_filter_filter. apply list_filter_iff. intros u.
      rewrite fmap_cons, not_elem_of_cons. propositional.
Qed.

(** X11: a fetch that rejects ends the drain.  When the store's requests
    succeed, the records before [uK] get ok responses and the fetch for
    [uK] rejects, the records before [uK] are removed and stay removed,
    [uK] and every record after it remain, no record after [uK] is posted,
    and the rejection ends up on the console while the promise of the
    drain is fulfilled. *)
Theorem drain_stops_at_rejected_fetch w before uK after error :
  uploads w = before ++ uK :: after →
  NoDup (upload_id <$> uploads w) →
  (∀ r, indexedDB r = None) →
  (∀ history u, u ∈ before →
     ∃ response, network history (upload_request u) = Fulfilled response ∧
                 ok response = true) →
  (∀ history, network history (upload_request uK) = Rejected error) →
  let r := uploadPendingVideos w in
  r.1 = Fulfilled tt ∧
  uploads r.2 = uK :: after ∧
  (new_fetches w r.2).*1 = upload_request <$> (before ++ [uK]) ∧
  last (console r.2) =
    Some (console_error "[Service Worker] Upload failed:" (ErrArg error)).
Proof.
  intros Hstore Hnd Hdb Hok Hrejected r. subst r.
  destruct (upload_each_until_rejected before uK after error w)
    as (new & w' & Hrun & Hlog & Hreq & Hup); [by intros; apply Hdb|done..|].
  unfold uploadPendingVideos, catch, and_then, openDatabase, getPendingUploads,
    log_error, new_fetches.
  rewrite !Hdb. cbn. rewrite Hstore, Hrun. cbn.
  rewrite Hlog, drop_app_length, Hup, last_snoc, Hstore.
  split; [done|]. split; [|done].
  rewrite Hstore in Hnd. by apply (filter_drops_prefix upload_id).
Qed.

(** *** One failing transfer *)

(** A stretch of records whose attempts all get ok responses: each is
    posted and removed, and the loop goes on with what follows. *)
Lemma upload_each_delivers before rest w :
  (∀ key, indexedDB (IdbDelete key) = None) →
  (∀ history i u, before !! i = Some u →
     length history = length (fetched w) + i →
     ∃ response, network history (upload_request u) = Fulfilled response ∧
                 ok response = true) →
  ∃ (new : list (Request * Settled Response)) w1,
    upload_each tt (before ++ rest) w = upload_each tt rest w1 ∧
    fetched w1 = fetched w ++ new ∧
    new.*1 = upload_request <$> before ∧
    uploads w1 = filter (λ u, upload_id u ∉ upload_id <$> before) (uploads w).
Proof.
  intros Hdelete. revert w. induction before as [|b before IH]; intros w Hok.
  - exists [], w. cbn. rewrite app_nil_r. split; [done|]. split; [done|]. split; [done|].
    symmetry. apply filter_all. intros u _. apply not_elem_of_nil.
  - cbn [app]. rewrite upload_each_cons. cbv zeta.
    destruct (Hok (fetched w) 0 b) as (response & -> & ->); [done|lia|].
    rewrite Hdelete. set (w2 := add_console _ _).
    destruct (IH w2) as (new & w1 & Hrun & Hlog & Hreq & Hup).
    { intros history i u Hi Hlen. apply (Hok history (S i) u); [done|].
      rewrite Hlen. subst w2. cbn. rewrite length_app. cbn. lia. }
    exists ((upload_request b, Fulfilled response) :: new), w1.
    split; [done|]. split; [|split].
    + rewrite Hlog. subst w2. cbn. by rewrite <- app_assoc.
    + cbn. by rewrite Hreq.
    + rewrite Hup. subst w2. cbn [uploads add_console set_uploads add_fetched].
      rewrite list_filter_filter. apply list_filter_iff. intros u.
      rewrite fmap_cons, not_elem_of_cons. propositional.
Qed.

(** With distinct keys, the records whose key is neither before nor after
    position [K] are the record at position [K]. *)
Lemma filter_keeps_the_kth {A B} `{!EqDecision A} `{!EqDecision B} (f : A → B)
    (l : list A) K x :
  NoDup (f <$> l) →
  l !! K = Some x →
  filter (λ u, f u ∉ f <$> drop (S K) l) (filter (λ u, f u ∉ f <$> take K l) l) = [x].
Proof.
  intros Hnd HK.
  assert (Hx : x ∈ l) by by eapply list_elem_of_lookup_2.
  rewrite list_filter_filter.
  rewrite <- (filter_eq_singleton l x); [|by eapply NoDup_fmap_1|done].
  pose proof (take_drop_middle l K x HK) as Hsplit.
  assert (Hparts : NoDup (f <$> take K l ++ x :: drop (S K) l)) by by rewrite Hsplit.
  rewrite fmap_app, fmap_cons in Hparts.
  apply NoDup_app in Hparts as (_ & Hbefore & Hafter).
  apply NoDup_cons in Hafter as [Hafter _].
  apply filter_ext_elem. intros y Hy. split.
  - intros [Hnd2 Hnt]. rewrite <- Hsplit in Hy.
    apply elem_of_app in Hy as [Hy|Hy]; [by destruct Hnt; apply list_elem_of_fmap_2|].
    apply elem_of_cons in Hy as [->|Hy]; [done|].
    by destruct Hnd2; apply list_elem_of_fmap_2.
  - intros ->. split; [done|]. intros Hin. apply (Hbefore (f x) Hin). left.
Qed.

(** C3 (as amended): one drain over N pending records with distinct keys
    and a store whose requests succeed, when only the transfer of the
    record at position [K] fails.  The records before it are posted in
    store order and removed, and the [K]-th fetch of the pass posts the
    [K]-th record and fails.  When it fails by a response that is not ok,
    all N records are posted, one after the other in store order, and the
    [K]-th record is the only one that remains.  When it fails by a
    rejected fetch, the pass ends there: no later record is posted, and the
    [K]-th record and every record after it remain, while the records
    delivered before it stay removed. *)
Theorem one_failure_by_its_kind w K uK :
  NoDup (upload_id <$> uploads w) →
  (∀ r, indexedDB r = None) →
  only_kth_fails w K →
  uploads w !! K = Some uK →
  let w' := (uploadPendingVideos w).2 in
  ∃ outcome,
    new_fetches w w' !! K = Some (upload_request uK, outcome) ∧
    transfer_fails outcome ∧
    match outcome with
    | Fulfilled _ =>
        (new_fetches w w').*1 = upload_request <$> uploads w ∧
        uploads w' = [uK]
    | Rejected _ =>
        (new_fetches w w').*1 = upload_request <$> take (S K) (uploads w) ∧
        uploads w' = drop K (uploads w)
    end.
Proof.
  intros Hnd Hdb Hfails HK w'. subst w'. unfold new_fetches.
  destruct (uploadPendingVideos_run w) as [_ Hrun].
  rewrite decide_True in Hrun by by rewrite !Hdb. destruct Hrun as [-> ->].
  assert (HKlt : K < length (uploads w)) by by eapply lookup_lt_Some.
  destruct (upload_each_delivers (take K (uploads w)) (uK :: drop (S K) (uploads w)) w)
    as (new & w1 & Hrun & Hlog & Hreq & Hup); [by intros; apply Hdb| |].
  { intros history i u Hi Hh. apply lookup_take_Some in Hi as [Hi HiK].
    specialize (Hfails history i u Hi Hh). by rewrite decide_False in Hfails by lia. }
  rewrite take_drop_middle in Hrun by done. rewrite Hrun. clear Hrun.
  assert (Hnew : length new = K).
  { rewrite <- (length_fmap fst), Hreq, length_fmap. apply length_take_le. lia. }
  rewrite upload_each_cons. cbv zeta.
  assert (HfK : transfer_fails (network (fetched w1) (upload_request uK))).
  { specialize (Hfails (fetched w1) K uK HK). rewrite decide_True in Hfails by done.
    apply Hfails. rewrite Hlog, length_app. lia. }
  destruct (network (fetched w1) (upload_request uK)) as [response|error] eqn:Hout.
  - cbn in HfK. rewrite HfK.
    set (w2 := add_fetched _ w1).
    destruct (upload_each_delivers (drop (S K) (uploads w)) [] w2)
      as (new2 & w3 & Hrun & Hlog2 & Hreq2 & Hup2); [by intros; apply Hdb| |].
    { intros history i u Hi Hh. rewrite lookup_drop in Hi.
      assert (Hpos : length history = length (fetched w) + (S K + i)).
      { rewrite Hh. subst w2. cbn. rewrite !length_app, Hlog, length_app. cbn. lia. }
      specialize (Hfails history (S K + i) u Hi Hpos).
      by rewrite decide_False in Hfails by lia. }
    rewrite app_nil_r in Hrun. rewrite Hrun. cbn [upload_each]. unfold resolve. cbn [snd].
    exists (Fulfilled response).
    rewrite Hlog2. subst w2. cbn [fetched add_fetched]. rewrite Hlog, <- !app_assoc.
    rewrite drop_app_length.
    split; [|split; [done|split]].
    + rewrite lookup_app_r by lia. by rewrite Hnew, Nat.sub_diag.
    + rewrite !fmap_app, Hreq, Hreq2. cbn.
      by rewrite <- fmap_cons, <- fmap_app, take_drop_middle.
    + rewrite Hup2. subst. cbn [uploads add_fetched]. rewrite Hup.
      by apply filter_keeps_the_kth.
  - exists (Rejected error). cbn [snd fetched add_fetched].
    rewrite Hlog, <- app_assoc, drop_app_length.
    split; [|split; [done|split]].
    + rewrite lookup_app_r by lia. by rewrite Hnew, Nat.sub_diag.
    + rewrite fmap_app, Hreq. cbn. by rewrite (take_S_r _ _ uK), fmap_app.
    + cbn [uploads add_fetched]. rewrite Hup.
      transitivity (filter (λ u, upload_id u ∉ upload_id <$> take K (uploads w))
                      (take K (uploads w) ++ drop K (uploads w)));
        [by rewrite take_drop|].
      apply (filter_drops_prefix upload_id). by rewrite take_drop.
Qed.

Lemma fetch_each_cons u urls w :
  fetch_each (u :: urls) w =
    let w1 := add_fetched (GET u, network (fetched w) (GET u)) w in
    match network (fetched w) (GET u) with
    | Rejected error => (Rejected error, w1)
    | Fulfilled response =>
        if ok response then
          match fetch_each urls w1 with
          | (Fulfilled others, w') => (Fulfilled ((u, response) :: others), w')
          | (Rejected error, w') => (Rejected error, w')
          end
        else (Rejected (TypeError "Request failed"), w1)
    end.
Proof.
  cbn [fetch_each]. unfold and_then at 1, fetch. cbv zeta.
  destruct (network (fetched w) (GET u)) as [response|error]; [|done].
  cbv beta iota. destruct (ok response); [|done].
  unfold and_then. by destruct (fetch_each urls _) as [[others|error] w'].
Qed.

Lemma fetch_each_frame urls w :
  caches (fetch_each urls w).2 = caches w ∧
  ∀ responses, (fetch_each urls w).1 = Fulfilled responses → responses.*1 = urls.
Proof.
  revert w. induction urls as [|u urls IH]; intros w.
  { split; [done|]. by intros responses [= <-]. }
  rewrite fetch_each_cons. cbv zeta.
  destruct (network (fetched w) (GET u)) as [response|error]; [|done].
  destruct (ok response); [|done].
  destruct (IH (add_fetched (GET u, Fulfilled response) w)) as [Hcaches Hurls].
  destruct (fetch_each urls _) as [[others|error] w']; [|done].
  split; [done|]. intros responses [= <-]. cbn. f_equal. by apply Hurls.
Qed.

(** The install listener changes no cache entry but the static
    partition's entries for the URLs of the manifest. *)
Lemma install_listener_frame cache key w :
  ¬ (cache = STATIC_CACHE ∧ key ∈ STATIC_ASSETS) →
  stored cache key (install_listener w).2 = stored cache key w.
Proof.
  intros Hother. rewrite install_listener_run. cbv zeta.
  set (w0 := add_console (console_log "[Service Worker] Installing..." NoArg) w).
  set (w1 := add_console _ _).
  assert (Hw1 : ∀ c k, stored c k w1 = stored c k w).
  { intros c k. subst w1. unfold stored, add_console at 1; cbn [caches].
    fold (stored c k (caches_open STATIC_CACHE w0).2).
    by rewrite stored_caches_open. }
  destruct (fetch_each_frame STATIC_ASSETS w1) as [Hcaches Hurls].
  destruct (fetch_each STATIC_ASSETS w1) as [[responses|error] w2]; cbn [fst snd] in *.
  - specialize (Hurls responses eq_refl).
    rewrite <- Hw1. unfold stored, skipWaiting, add_console, set_caches.
    cbn [snd caches]. rewrite Hcaches.
    destruct (decide (cache = STATIC_CACHE)) as [->|Hcache].
    + rewrite lookup_alter_eq.
      destruct (caches w1 !! STATIC_CACHE) as [entries|]; [|done]. cbn.
      rewrite lookup_foldl_insert.
      rewrite filter_none; [done|].
      intros [k r] Hin Hk. cbn in Hk. subst k. apply Hother. split; [done|].
      rewrite <- Hurls. by apply (list_elem_of_fmap_2 fst) in Hin.
    + by rewrite lookup_alter_ne.
  - rewrite <- Hw1. unfold stored, add_console at 1; cbn [caches]. by rewrite Hcaches.
Qed.

(** X21: whether it succeeds or fails, the install listener changes no
    cache entry but the static partition's entries for the URLs of the
    manifest; in particular it never touches the dynamic partition. *)
Theorem install_touches_manifest_entries_only cache key w :
  ¬ (cache = STATIC_CACHE ∧ key ∈ STATIC_ASSETS) →
  stored cache key (install_listener w).2 = stored cache key w.
Proof. apply install_listener_frame. Qed.

(** X22: network-first never reads the static partition: its response is
    the same in any two worlds with the same fetch history and the same
    dynamic entry for the request, whatever else the caches hold. *)
Theorem networkFirst_reads_dynamic_entry_only request v w :
  fetched v = fetched w →
  stored DYNAMIC_CACHE (url request) v = stored DYNAMIC_CACHE (url request) w →
  (networkFirst request v).1 = (networkFirst request w).1.
Proof.
  intros Hlog Hentry.
  destruct (network (fetched w) request) as [response|error] eqn:Hnet.
  - rewrite (networkFirst_resolved _ _ w Hnet).
    rewrite (networkFirst_resolved request response v); [done|]. by rewrite Hlog.
  - destruct (networkFirst_rejected _ _ w Hnet) as (w' & -> & _).
    destruct (networkFirst_rejected request error v) as (v' & -> & _).
    { by rewrite Hlog. }
    cbn [fst]. unfold matching. by rewrite Hentry.
Qed.

End Worker.

(** ** The claims at concrete inputs *)

(** C1 (the code at a failing input): the fourth asset of the manifest
    cannot be fetched.  The listener writes Installation failed to the
    console, and yet the promise it handed to [event.waitUntil] is
    fulfilled: no failure is signalled, and the worker counts as installed
    with a static partition that holds nothing. *)
Theorem install_failure_is_swallowed :
  let r := install_listener main_js_unreachable fresh_world in
  (fetched r.2).*1 = [GET "/"; GET "/index.html"; GET "/css/style.css"; GET "/js/main.js"] ∧
  last (fetched r.2) = Some (GET "/js/main.js", Rejected (TypeError "Failed to fetch")) ∧
  last (console r.2) =
    Some (console_error "[Service Worker] Installation failed:"
            (ErrArg (TypeError "Failed to fetch"))) ∧
  r.1 = Fulfilled tt ∧
  after_install r.1 = Installed ∧
  caches r.2 !! STATIC_CACHE = Some ∅ ∧
  skipped_waiting r.2 = false.
Proof. vm_compute. done. Qed.

Example install_online_populates :
  let r := install_listener online fresh_world in
  r.1 = Fulfilled tt ∧
  (∀ asset, asset ∈ STATIC_ASSETS → is_Some (stored STATIC_CACHE asset r.2)) ∧
  skipped_waiting r.2 = true.
Proof.
  split; [by vm_compute|]. split; [|by vm_compute].
  intros asset Hin. unfold STATIC_ASSETS in Hin.
  repeat (apply elem_of_cons in Hin as [->|Hin]; [vm_compute; eauto|]).
  by apply elem_of_nil in Hin.
Qed.

(** C2 (counterexample): one pending record, a server that accepts it, and
    a store whose delete request fails.  The transfer returned success and
    the record is still in the store. *)
Lemma removed_iff_transferred_fails :
  ¬ removed_iff_transferred online delete_fails one_pending.
Proof.
  unfold removed_iff_transferred. intros Hclaim.
  assert (Hnd : NoDup (upload_id <$> uploads one_pending)).
  { apply (bool_decide_unpack _). by vm_compute. }
  destruct (Hclaim Hnd clip_1) as [_ Hremoved]; [by left|].
  apply Hremoved.
  - exists 0, (mkResponse 200 "/api/videos/upload"). by vm_compute.
  - vm_compute. left.
Qed.

(** C2 at three pending records, the second refused by the server. *)
Lemma removed_iff_transferred_and_deleted_witness :
  NoDup (upload_id <$> uploads three_pending) ∧
  clip_2 ∈ uploads three_pending ∧
  let w' := (uploadPendingVideos refuses_clip_2 store_works three_pending).2 in
  (clip_2 ∉ uploads w' ↔
     transfer_succeeded three_pending w' clip_2 ∧
     store_works (IdbDelete (upload_id clip_2)) = None) ∧
  (clip_2 ∉ uploads w' → transfer_succeeded three_pending w' clip_2).
Proof.
  assert (Hnd : NoDup (upload_id <$> uploads three_pending)).
  { apply (bool_decide_unpack _). vm_compute. reflexivity. }
  assert (Hin : clip_2 ∈ uploads three_pending).
  { apply (bool_decide_unpack _). vm_compute. reflexivity. }
  split; [exact Hnd|]. split; [exact Hin|].
  exact (removed_iff_transferred_and_deleted refuses_clip_2 store_works
           three_pending clip_2 Hnd Hin).
Defined.

(** C3 (counterexample): three pending records, of which only the second
    fails to transfer: its fetch rejects.  The pass ends there.  The third
    record is not attempted, and the second and the third remain, not the
    second alone. *)
Lemma one_failure_leaves_only_the_kth_fails :
  ¬ one_failure_leaves_only_the_kth clip_2_unreachable store_works three_pending 1.
Proof.
  unfold one_failure_leaves_only_the_kth. intros Hclaim.
  destruct (Hclaim) with (uK := clip_2) as [Hall Hleft].
  - apply (bool_decide_unpack _). by vm_compute.
  - done.
  - intros history i u Hi _.
    destruct i as [|[|[|i]]]; cbn in Hi; simplify_eq.
    + by exists (mkResponse 201 "").
    + by vm_compute.
    + by exists (mkResponse 201 "").
  - done.
  - vm_compute in Hleft. discriminate.
Qed.

(** C3 at three pending records of which the first two carry the same
    file, with a server that refuses the second transfer it gets. *)
Lemma one_failure_by_its_kind_witness :
  NoDup (upload_id <$> uploads twin_pending) ∧
  (∀ r, store_works r = None) ∧
  only_kth_fails refuses_second_fetch twin_pending 1 ∧
  uploads twin_pending !! 1 = Some clip_1_again ∧
  let w' := (uploadPendingVideos refuses_second_fetch store_works twin_pending).2 in
  ∃ outcome,
    new_fetches twin_pending w' !! 1 = Some (upload_request clip_1_again, outcome) ∧
    transfer_fails outcome ∧
    match outcome with
    | Fulfilled _ =>
        (new_fetches twin_pending w').*1 = upload_request <$> uploads twin_pending ∧
        uploads w' = [clip_1_again]
    | Rejected _ =>
        (new_fetches twin_pending w').*1 =
          upload_request <$> take 2 (uploads twin_pending) ∧
        uploads w' = drop 1 (uploads twin_pending)
    end.
Proof.
  assert (Hnd : NoDup (upload_id <$> uploads twin_pending)).
  { apply (bool_decide_unpack _). vm_compute. reflexivity. }
  assert (Hdb : ∀ r, store_works r = None) by reflexivity.
  assert (Hfails : only_kth_fails refuses_second_fetch twin_pending 1).
  { intros history i u Hi Hlen. unfold refuses_second_fetch. rewrite Hlen.
    destruct i as [|[|[|i]]]; cbn in Hi; simplify_eq.
    - by exists (mkResponse 201 "").
    - reflexivity.
    - by exists (mkResponse 201 ""). }
  assert (HK : uploads twin_pending !! 1 = Some clip_1_again) by reflexivity.
  split; [exact Hnd|]. split; [exact Hdb|]. split; [exact Hfails|]. split; [exact HK|].
  exact (one_failure_by_its_kind refuses_second_fetch store_works twin_pending 1
           clip_1_again Hnd Hdb Hfails HK).
Defined.

(** The two kinds of failure at concrete stores.  A refused transfer: all
    three records are posted and the refused one alone remains. *)
Example refused_transfer_leaves_that_record :
  let w' := (uploadPendingVideos refuses_clip_2 store_works three_pending).2 in
  uploads w' = [clip_2] ∧
  (new_fetches three_pending w').*1 = upload_request <$> [clip_1; clip_2; clip_3].
Proof. by vm_compute. Qed.

(** A transfer that is never answered: the pass stops there, the first
    record is removed, the second and the third remain, and the third is
    not attempted. *)
Example rejected_fetch_ends_the_pass :
  let w' := (uploadPendingVideos online_once store_works three_pending).2 in
  uploads w' = [clip_2; clip_3] ∧
  (new_fetches three_pending w').*1 = [upload_request clip_1; upload_request clip_2].
Proof. by vm_compute. Qed.

(** C4 (counterexample): the dynamic partition holds a copy of an earlier
    answer and the server now answers with status 500.  Network-first
    returns the 500 response and leaves the dynamic partition as it was.
    If the resolved fetch counts as a success, no copy of it was mirrored;
    if it counts as a failure, the mirrored copy was not returned. *)
Lemma networkFirst_as_claimed_fails :
  ¬ networkFirst_as_claimed server_error (λ _, true) (GET "/api/cameras") mirrored_world ∧
  ¬ networkFirst_as_claimed server_error ok (GET "/api/cameras") mirrored_world.
Proof.
  unfold networkFirst_as_claimed. split; vm_compute.
  - intros [_ Hmirror]. discriminate.
  - intros Hcopy. discriminate.
Qed.

(** C9 (the code at a failing input): a request to tracker.example whose
    query string mentions cdnjs.cloudflare.com, seen by the worker of
    secureai.example.  The request is cross-origin and its host is neither
    of the two allow-listed ones, and yet the listener does not leave it
    to the browser: it responds to it, with cache-first.  The listener sets
    out to skip cross-origin requests but those to the two hosts, and looks
    for the host names anywhere in the URL instead of in its host. *)
Theorem fetch_listener_handles_foreign_host :
  let request := GET "https://tracker.example/pixel?from=cdnjs.cloudflare.com" in
  let parsed := example_URL (url request) in
  origin parsed = "https://tracker.example" ∧
  origin parsed ≠ "https://secureai.example" ∧
  ¬ occurs_in "cdnjs.cloudflare.com" (origin parsed) ∧
  ¬ occurs_in "fonts.googleapis.com" (origin parsed) ∧
  fetch_listener example_URL "https://secureai.example" request = Some CacheFirst.
Proof.
  cbv zeta. split; [by vm_compute|]. split; [by vm_compute|].
  split; [apply includes_false; by vm_compute|].
  split; [apply includes_false; by vm_compute|].
  by vm_compute.
Qed.

(** The claim on the router, read on the request's origin, at that input. *)
Lemma passes_through_other_hosts_fails :
  ¬ passes_through_other_hosts example_URL "https://secureai.example"
      (GET "https://tracker.example/pixel?from=cdnjs.cloudflare.com").
Proof.
  unfold passes_through_other_hosts. intros Hclaim.
  assert (Hhandled :
    fetch_listener example_URL "https://secureai.example"
      (GET "https://tracker.example/pixel?from=cdnjs.cloudflare.com") = None);
    [|by vm_compute in Hhandled].
  apply Hclaim.
  - by vm_compute.
  - apply includes_false. by vm_compute.
  - apply includes_false. by vm_compute.
Qed.


(** C6 at a request the static partition lacks, with the network down. *)
Lemma cacheFirst_offline_fallback_witness :
  stored STATIC_CACHE (url (GET "/css/style.css")) installed_world = None ∧
  offline (fetched installed_world) (GET "/css/style.css") =
    Rejected (TypeError "Failed to fetch") ∧
  (cacheFirst offline (GET "/css/style.css") installed_world).1 =
    match stored STATIC_CACHE "/offline.html" installed_world with
    | Some offlinePage => Fulfilled offlinePage
    | None => Fulfilled offline_response
    end ∧
  status offline_response = 503%N ∧
  ∀ reason,
    (cacheFirst offline (GET "/css/style.css") installed_world).1 ≠ Rejected reason.
Proof.
  assert (Hmiss : stored STATIC_CACHE (url (GET "/css/style.css")) installed_world
                  = None).
  { vm_compute. reflexivity. }
  assert (Hnet : offline (fetched installed_world) (GET "/css/style.css") =
                 Rejected (TypeError "Failed to fetch")) by reflexivity.
  split; [exact Hmiss|]. split; [exact Hnet|].
  exact (cacheFirst_offline_fallback offline (GET "/css/style.css")
           (TypeError "Failed to fetch") installed_world Hmiss Hnet).
Defined.

(** C10 (counterexample): three misses of the static partition whose
    fetch resolves and whose response is not written into the dynamic
    partition: a response of status 500, a response of status 206, and the
    response to a POST. *)
Lemma cacheFirst_writes_and_refetches_fails :
  ¬ cacheFirst_writes_and_refetches server_error (GET "/css/style.css") installed_world ∧
  ¬ cacheFirst_writes_and_refetches partial_content (GET "/recordings/clip-1.mp4")
      installed_world ∧
  ¬ cacheFirst_writes_and_refetches online (mkRequest "/feedback" "POST" None)
      installed_world.
Proof.
  unfold cacheFirst_writes_and_refetches.
  split; [|split]; intros Hclaim;
    (edestruct Hclaim as [Hcopy _]; [by vm_compute|reflexivity|]);
    vm_compute in Hcopy; discriminate.
Qed.

(** C10 at a request the static partition lacks, made twice, with a
    network that is gone after the first answer. *)
Lemma cacheFirst_never_serves_dynamic_copy_witness :
  stored STATIC_CACHE (url (GET "/css/style.css")) installed_world = None ∧
  let w1 := (cacheFirst online_once (GET "/css/style.css") installed_world).2 in
  let r2 := cacheFirst online_once (GET "/css/style.css") w1 in
  (∀ key, stored STATIC_CACHE key w1 = stored STATIC_CACHE key installed_world) ∧
  fetched w1 =
    fetched installed_world ++
    [(GET "/css/style.css",
      online_once (fetched installed_world) (GET "/css/style.css"))] ∧
  (∀ response,
     online_once (fetched installed_world) (GET "/css/style.css") = Fulfilled response →
     stored DYNAMIC_CACHE (url (GET "/css/style.css")) w1 =
       (if ok response && cache_admits (GET "/css/style.css") response
        then Some response
        else stored DYNAMIC_CACHE (url (GET "/css/style.css")) installed_world)) ∧
  fetched r2.2 =
    fetched w1 ++ [(GET "/css/style.css", online_once (fetched w1) (GET "/css/style.css"))] ∧
  r2.1 = match online_once (fetched w1) (GET "/css/style.css") with
         | Fulfilled again => Fulfilled again
         | Rejected _ =>
             Fulfilled (default offline_response
                          (stored STATIC_CACHE "/offline.html" installed_world))
         end ∧
  ∀ v, fetched v = fetched w1 →
       (∀ key, stored STATIC_CACHE key v = stored STATIC_CACHE key w1) →
       (cacheFirst online_once (GET "/css/style.css") v).1 = r2.1.
Proof.
  assert (Hmiss : stored STATIC_CACHE (url (GET "/css/style.css")) installed_world
                  = None).
  { vm_compute. reflexivity. }
  split; [exact Hmiss|].
  exact (cacheFirst_never_serves_dynamic_copy online_once (GET "/css/style.css")
           installed_world Hmiss).
Defined.

(** The copy the first run stored in the dynamic partition is there, and
    the repeat, with the network gone, answers 503 all the same. *)
Example dynamic_copy_not_served :
  let w1 := (cacheFirst online_once (GET "/css/style.css") installed_world).2 in
  stored DYNAMIC_CACHE "/css/style.css" w1 = Some (mkResponse 200 "/css/style.css") ∧
  (cacheFirst online_once (GET "/css/style.css") w1).1 = Fulfilled offline_response.
Proof. by vm_compute. Qed.

(** A response that is not ok is returned by network-first even when the
    dynamic partition holds an earlier copy, which stays as it was. *)
Example networkFirst_error_response_over_copy :
  let w1 := (networkFirst online (GET "/api/cameras") fresh_world).2 in
  let r := networkFirst server_error (GET "/api/cameras") w1 in
  stored DYNAMIC_CACHE "/api/cameras" w1 = Some (mkResponse 200 "/api/cameras") ∧
  r.1 = Fulfilled (mkResponse 500 "Internal Server Error") ∧
  stored DYNAMIC_CACHE "/api/cameras" r.2 = Some (mkResponse 200 "/api/cameras").
Proof. by vm_compute. Qed.

(** The response to a POST is returned by network-first and not mirrored,
    and no mirrored copy answers a POST when the network is down. *)
Example networkFirst_post_not_mirrored :
  let post := mkRequest "/api/cameras" "POST" None in
  let r := networkFirst online post fresh_world in
  r.1 = Fulfilled (mkResponse 200 "/api/cameras") ∧
  stored DYNAMIC_CACHE "/api/cameras" r.2 = None ∧
  (networkFirst offline post mirrored_world).1 = Rejected (TypeError "Failed to fetch").
Proof. by vm_compute. Qed.

Example activate_old_version :
  let w' := (activate_listener old_version_world).2 in
  caches w' !! "secureai-static-v0.9.0" = None ∧
  caches w' !! STATIC_CACHE = Some {[ "/index.html" := home_page ]} ∧
  caches w' !! DYNAMIC_CACHE = Some ∅ ∧
  clients_claimed w' = true.
Proof. by vm_compute. Qed.

(** Routing at concrete URLs.  The third-party check is a substring test
    on the whole URL. *)
Example routing_examples :
  let route u := fetch_listener example_URL "https://secureai.example" (GET u) in
  route "https://secureai.example/api/cameras" = Some NetworkFirst ∧
  route "https://secureai.example/css/style.css" = Some CacheFirst ∧
  route "https://fonts.googleapis.com/css2?family=Inter" = Some CacheFirst ∧
  route "https://cdnjs.cloudflare.com/ajax/libs/font-awesome/6.4.0/css/all.min.css"
    = Some CacheFirst ∧
  route "https://cdn.jsdelivr.net/npm/chart.js@4.4.0/dist/chart.umd.js" = None ∧
  route "https://tracker.example/pixel?from=cdnjs.cloudflare.com" = Some CacheFirst.
Proof. by vm_compute. Qed.

(** ** Install, then serve *)


(** ** The push and the notificationclick listeners *)

Lemma truthy_js_or a b : truthy b = true → truthy (js_or a b) = true.
Proof. intros Hb. unfold js_or. by destruct (truthy a) eqn:Ha. Qed.

(** X13: the push listener throws exactly on a message that is not JSON
    or is JSON null, and otherwise shows a notification that is never
    blank: its title, body, tag and target URL are values that count as
    true, its requireInteraction counts as true or is false, and its two
    actions are view and dismiss. *)
Theorem push_listener_outcome event_data now :
  ((∃ error, push_listener event_data now = Thrown error) ↔
     event_data = Some NotJson ∨ event_data = Some JsonNull) ∧
  ∀ n, push_listener event_data now = Shown n →
    truthy (title n) = true ∧
    truthy (options_body n) = true ∧
    truthy (tag n) = true ∧
    truthy (data_url n) = true ∧
    (truthy (requireInteraction n) = true ∨ requireInteraction n = JsBool false) ∧
    action <$> actions n = ["view"; "dismiss"].
Proof.
  unfold push_listener, push_data. split.
  - destruct event_data as [[| |fields]|]; split;
      try (intros [error [=]]); try (intros [[=]|[=]]); eauto.
  - intros n Hshown.
    assert (Hfrom : ∃ data,
      n = mkNotification
            (js_or (field_title data) (JsString "Security Alert"))
            (js_or (field_body data) (JsString "New security event detected"))
            "/icons/icon-192x192.png" "/icons/badge-72x72.png" [200; 100; 200]%N
            (js_or (field_tag data) (JsString "security-alert"))
            (js_or (field_requireInteraction data) (JsBool false))
            [ mkAction "view" "View Details" "/icons/action-view.png";
              mkAction "dismiss" "Dismiss" "/icons/action-dismiss.png" ]
            (js_or (field_url data) (JsString "/")) now).
    { destruct event_data as [[| |fields]|]; try discriminate;
        injection Hshown as <-;
        [by exists fields
        |by exists (mkPushFields JsUndefined JsUndefined JsUndefined JsUndefined
                                 JsUndefined)]. }
    destruct Hfrom as [data ->]. cbn.
    rewrite !truthy_js_or by done. repeat split.
    unfold js_or. destruct (truthy (field_requireInteraction data)) eqn:Hri; auto.
Qed.

(** X14: a click always closes the notification first, and then does at
    most one more thing; for every action but view, the click on the
    notification itself included, it does nothing more. *)
Theorem notificationclick_effects clicked n windowClients openWindow :
  ∃ rest,
    notificationclick_listener clicked n windowClients openWindow
      = CloseNotification :: rest ∧
    (length rest ≤ 1)%nat ∧
    (clicked ≠ "view" → rest = []).
Proof.
  unfold notificationclick_listener. eexists. split; [done|].
  destruct (String.eqb_spec clicked "view") as [->|Hother].
  - split; [|done]. cbv zeta.
    destruct (list_find _ windowClients) as [[index client]|]; [cbn; lia|].
    destruct openWindow; cbn; lia.
  - split; [cbn; lia|done].
Qed.

(** X15: on the view action the listener focuses the first window client
    that shows the target URL and has a focus method, and opens no window
    then; it opens a new window at the target URL exactly when no such
    client exists and the platform can open windows.  The target is the
    URL in the notification, or / when that does not count as true. *)
Theorem notificationclick_view n windowClients openWindow :
  let target := js_or (data_url n) (JsString "/") in
  let effects := notificationclick_listener "view" n windowClients openWindow in
  (∀ i, FocusClient i ∈ effects ↔
     ∃ client, windowClients !! i = Some client ∧ shows target client = true ∧
       ∀ j other, windowClients !! j = Some other → (j < i)%nat →
                  shows target other = false) ∧
  (∀ u, OpenWindow u ∈ effects ↔
     u = target ∧ openWindow = true ∧
     ∀ client, client ∈ windowClients → shows target client = false).
Proof.
  intros target effects. subst effects. unfold notificationclick_listener.
  cbn [String.eqb Ascii.eqb Bool.eqb]. cbv zeta. fold target.
  destruct (list_find _ windowClients) as [[index client]|] eqn:Hfind.
  - apply list_find_Some in Hfind as (Hat & Hshows & Hfirst). split.
    + intros i. rewrite !elem_of_cons, elem_of_nil. split.
      * intros [[=]|[[= ->]|[]]]. exists client. split; [done|]. split; [done|].
        intros j other Hj Hlt. specialize (Hfirst j other Hj Hlt).
        by destruct (shows target other).
      * intros (c & Hi & Hc & Hbefore). right. left. f_equal.
        destruct (Nat.lt_trichotomy i index) as [Hlt|[->|Hgt]]; [|done|].
        -- destruct (Hfirst i c Hi Hlt Hc).
        -- specialize (Hbefore index client Hat Hgt). congruence.
    + intros u. rewrite !elem_of_cons, elem_of_nil. split.
      * intros [[=]|[[=]|[]]].
      * intros (_ & _ & Hnone).
        specialize (Hnone client (list_elem_of_lookup_2 _ _ _ Hat)). congruence.
  - apply list_find_None in Hfind. rewrite Forall_forall in Hfind. split.
    + intros i. split.
      * destruct openWindow; rewrite !elem_of_cons, ?elem_of_nil;
          intros Hin; destruct_or!; by simplify_eq.
      * intros (c & Hi & Hc & _).
        destruct (Hfind c (list_elem_of_lookup_2 _ _ _ Hi) Hc).
    + intros u. split.
      * destruct openWindow; rewrite !elem_of_cons, ?elem_of_nil;
          intros Hin; destruct_or!; simplify_eq; try done.
        split; [done|]. split; [done|]. intros c Hc.
        specialize (Hfind c Hc). by destruct (shows target c).
      * intros (-> & -> & _). right. left.
Qed.

(** X16: from push to click.  For a message with properties, the
    notification the push listener shows carries the message's url, or /
    when that does not count as true; the view action on it, when no
    window client shows that URL, opens a window exactly there. *)
Theorem push_then_view fields now windowClients :
  let target := js_or (field_url fields) (JsString "/") in
  (∀ client, client ∈ windowClients → JsString (client_url client) ≠ target) →
  ∃ n, push_listener (Some (JsonValue fields)) now = Shown n ∧
       notificationclick_listener "view" n windowClients true
         = [CloseNotification; OpenWindow target].
Proof.
  intros target Hnone. eexists. split; [done|].
  unfold notificationclick_listener. cbn [String.eqb Ascii.eqb Bool.eqb data_url]. cbv zeta.
  assert (Htarget : js_or (js_or (field_url fields) (JsString "/")) (JsString "/") = target).
  { subst target. unfold js_or at 1. by rewrite truthy_js_or. }
  rewrite Htarget.
  destruct (list_find _ windowClients) as [[index client]|] eqn:Hfind; [|done].
  apply list_find_Some in Hfind as (Hat & Hshows & _).
  unfold shows in Hshows. apply andb_true_iff in Hshows as [Hurl _].
  apply bool_decide_eq_true in Hurl.
  destruct (Hnone client (list_elem_of_lookup_2 _ _ _ Hat) Hurl).
Qed.

(** ** The further properties at concrete inputs *)



(** X2 on a fresh worker with /js/main.js unreachable. *)
Lemma install_failure_adds_nothing_witness :
  "/js/main.js" ∈ STATIC_ASSETS ∧
  (∀ history, transfer_fails (main_js_unreachable history (GET "/js/main.js"))) ∧
  let r := install_listener main_js_unreachable fresh_world in
  r.1 = Fulfilled tt ∧
  skipped_waiting r.2 = skipped_waiting fresh_world ∧
  (∀ key, stored STATIC_CACHE key r.2 = stored STATIC_CACHE key fresh_world) ∧
  ∃ error,
    last (console r.2) =
      Some (console_error "[Service Worker] Installation failed:" (ErrArg error)).
Proof.
  assert (Hasset : "/js/main.js" ∈ STATIC_ASSETS).
  { apply (bool_decide_unpack _). vm_compute. reflexivity. }
  assert (Hfails : ∀ history,
    transfer_fails (main_js_unreachable history (GET "/js/main.js"))).
  { intros history. vm_compute. exact I. }
  split; [exact Hasset|]. split; [exact Hfails|].
  exact (install_failure_adds_nothing main_js_unreachable fresh_world "/js/main.js"
           Hasset Hfails).
Defined.

(** X3 at a stylesheet the static partition lacks, answered with status 500. *)
Lemma cacheFirst_miss_outcomes_witness :
  stored STATIC_CACHE (url (GET "/css/style.css")) installed_world = None ∧
  server_error (fetched installed_world) (GET "/css/style.css")
    = Fulfilled (mkResponse 500 "Internal Server Error") ∧
  let r := cacheFirst server_error (GET "/css/style.css") installed_world in
  r.1 = Fulfilled (mkResponse 500 "Internal Server Error") ∧
  stored DYNAMIC_CACHE (url (GET "/css/style.css")) r.2 =
    (if ok (mkResponse 500 "Internal Server Error") &&
        cache_admits (GET "/css/style.css") (mkResponse 500 "Internal Server Error")
     then Some (mkResponse 500 "Internal Server Error")
     else stored DYNAMIC_CACHE (url (GET "/css/style.css")) installed_world).
Proof.
  assert (Hmiss : stored STATIC_CACHE (url (GET "/css/style.css")) installed_world
                  = None).
  { vm_compute. reflexivity. }
  assert (Hnet : server_error (fetched installed_world) (GET "/css/style.css")
                 = Fulfilled (mkResponse 500 "Internal Server Error")) by reflexivity.
  split; [exact Hmiss|]. split; [exact Hnet|].
  exact (cacheFirst_miss_outcomes server_error (GET "/css/style.css")
           (mkResponse 500 "Internal Server Error") installed_world Hmiss Hnet).
Defined.

(** X4 at a cache-first request for a stylesheet and the static entry of
    the home page. *)
Lemma strategies_touch_one_entry_witness :
  (STATIC_CACHE, "/index.html") ≠ (DYNAMIC_CACHE, url (GET "/css/style.css")) ∧
  stored STATIC_CACHE "/index.html"
    (strategy_handler online CacheFirst (GET "/css/style.css") installed_world).2
  = stored STATIC_CACHE "/index.html" installed_world.
Proof.
  assert (Hother : (STATIC_CACHE, "/index.html")
                   ≠ (DYNAMIC_CACHE, url (GET "/css/style.css"))).
  { intros Heq. discriminate Heq. }
  split; [exact Hother|].
  exact (strategies_touch_one_entry online CacheFirst (GET "/css/style.css")
           STATIC_CACHE "/index.html" installed_world Hother).
Defined.

(** X5 with a network that answers once and is gone afterwards. *)
Lemma networkFirst_mirror_round_trip_witness :
  online_once (fetched fresh_world) (GET "/api/cameras")
    = Fulfilled (mkResponse 200 "/api/cameras") ∧
  ok (mkResponse 200 "/api/cameras") = true ∧
  let w1 := (networkFirst online_once (GET "/api/cameras") fresh_world).2 in
  online_once (fetched w1) (GET "/api/cameras") = Rejected (TypeError "Failed to fetch") ∧
  cache_admits (GET "/api/cameras") (mkResponse 200 "/api/cameras") = true ∧
  (networkFirst online_once (GET "/api/cameras") w1).1
    = Fulfilled (mkResponse 200 "/api/cameras").
Proof.
  assert (Hnet : online_once (fetched fresh_world) (GET "/api/cameras")
                 = Fulfilled (mkResponse 200 "/api/cameras")) by reflexivity.
  assert (Hok : ok (mkResponse 200 "/api/cameras") = true) by reflexivity.
  assert (Hdown :
    online_once
      (fetched (networkFirst online_once (GET "/api/cameras") fresh_world).2)
      (GET "/api/cameras") = Rejected (TypeError "Failed to fetch")).
  { vm_compute. reflexivity. }
  assert (Hadmits : cache_admits (GET "/api/cameras") (mkResponse 200 "/api/cameras")
                    = true) by reflexivity.
  split; [exact Hnet|]. split; [exact Hok|]. split; [exact Hdown|].
  split; [exact Hadmits|].
  exact (proj1 (networkFirst_mirror_round_trip online_once (GET "/api/cameras")
                  (mkResponse 200 "/api/cameras") (TypeError "Failed to fetch")
                  fresh_world Hnet Hok Hdown) Hadmits).
Defined.

(** X10 at three pending records, all accepted. *)
Lemma drain_delivers_everything_witness :
  (∀ r, store_works r = None) ∧
  (∀ history u, u ∈ uploads three_pending →
     ∃ response, online history (upload_request u) = Fulfilled response ∧
                 ok response = true) ∧
  let w' := (uploadPendingVideos online store_works three_pending).2 in
  uploads w' = [] ∧
  (new_fetches three_pending w').*1 = upload_request <$> uploads three_pending.
Proof.
  assert (Hdb : ∀ r, store_works r = None) by reflexivity.
  assert (Hnet : ∀ history u, u ∈ uploads three_pending →
     ∃ response, online history (upload_request u) = Fulfilled response ∧
                 ok response = true).
  { intros history u _. eexists. split; reflexivity. }
  split; [exact Hdb|]. split; [exact Hnet|].
  exact (drain_delivers_everything online store_works three_pending Hdb Hnet).
Defined.

(** X11 at three pending records, the transfer of the second rejected. *)
Lemma drain_stops_at_rejected_fetch_witness :
  uploads three_pending = [clip_1] ++ clip_2 :: [clip_3] ∧
  NoDup (upload_id <$> uploads three_pending) ∧
  (∀ r, store_works r = None) ∧
  (∀ history u, u ∈ [clip_1] →
     ∃ response, clip_2_unreachable history (upload_request u) = Fulfilled response ∧
                 ok response = true) ∧
  (∀ history, clip_2_unreachable history (upload_request clip_2)
              = Rejected (TypeError "Failed to fetch")) ∧
  let r := uploadPendingVideos clip_2_unreachable store_works three_pending in
  r.1 = Fulfilled tt ∧
  uploads r.2 = clip_2 :: [clip_3] ∧
  (new_fetches three_pending r.2).*1 = upload_request <$> ([clip_1] ++ [clip_2]) ∧
  last (console r.2) =
    Some (console_error "[Service Worker] Upload failed:"
            (ErrArg (TypeError "Failed to fetch"))).
Proof.
  assert (Hstore : uploads three_pending = [clip_1] ++ clip_2 :: [clip_3])
    by reflexivity.
  assert (Hnd : NoDup (upload_id <$> uploads three_pending)).
  { apply (bool_decide_unpack _). vm_compute. reflexivity. }
  assert (Hdb : ∀ r, store_works r = None) by reflexivity.
  assert (Hok : ∀ history u, u ∈ [clip_1] →
     ∃ response, clip_2_unreachable history (upload_request u) = Fulfilled response ∧
                 ok response = true).
  { intros history u Hu. apply list_elem_of_singleton in Hu as ->.
    eexists. split; vm_compute; reflexivity. }
  assert (Hrej : ∀ history, clip_2_unreachable history (upload_request clip_2)
                            = Rejected (TypeError "Failed to fetch")).
  { intros history. vm_compute. reflexivity. }
  split; [exact Hstore|]. split; [exact Hnd|]. split; [exact Hdb|].
  split; [exact Hok|]. split; [exact Hrej|].
  exact (drain_stops_at_rejected_fetch clip_2_unreachable store_works three_pending
           [clip_1] clip_2 [clip_3] (TypeError "Failed to fetch")
           Hstore Hnd Hdb Hok Hrej).
Defined.


(** X16 at a message for the alerts page while only the dashboard is open. *)
Lemma push_then_view_witness :
  let target := js_or (field_url alert_message) (JsString "/") in
  (∀ client, client ∈ [mkClient "https://secureai.example/" true] →
             JsString (client_url client) ≠ target) ∧
  ∃ n, push_listener (Some (JsonValue alert_message)) 1700000000000 = Shown n ∧
       notificationclick_listener "view" n [mkClient "https://secureai.example/" true] true
         = [CloseNotification; OpenWindow target].
Proof.
  assert (Hnone : ∀ client, client ∈ [mkClient "https://secureai.example/" true] →
    JsString (client_url client) ≠ js_or (field_url alert_message) (JsString "/")).
  { intros client Hc. apply list_elem_of_singleton in Hc as ->. discriminate. }
  split; [exact Hnone|].
  exact (push_then_view alert_message 1700000000000
           [mkClient "https://secureai.example/" true] Hnone).
Defined.

(** The title of the message is empty, so the notification gets the
    default title; a window that shows the target is focused. *)
Example push_and_click_example :
  ∃ n, push_listener (Some (JsonValue alert_message)) 1700000000000 = Shown n ∧
       title n = JsString "Security Alert" ∧
       tag n = JsString "security-alert" ∧
       requireInteraction n = JsBool true ∧
       notificationclick_listener "view" n two_windows true
         = [CloseNotification; OpenWindow (JsString "/alerts")] ∧
       notificationclick_listener "" n two_windows true = [CloseNotification].
Proof. eexists. split; [reflexivity|]. by vm_compute. Qed.

(** ** Voice commands *)

Lemma append_assoc (a b c : string) : (a +:+ b) +:+ c = a +:+ (b +:+ c).
Proof.
  induction a as [|x a IH]; [done|].
  change (String x ((a +:+ b) +:+ c) = String x (a +:+ (b +:+ c))).
  by rewrite IH.
Qed.

(** A command that contains a phrase contains every part of the phrase. *)
Lemma includes_part s before part after :
  includes s (before +:+ part +:+ after) = true → includes s part = true.
Proof.
  rewrite !includes_spec. intros (l & r & ->).
  exists (l +:+ before), (after +:+ r). by rewrite !append_assoc.
Qed.

(** Walks down the chain of tests of [processVoiceCommand], one test at a
    time; [leaf] closes the goal once a branch is taken. *)
Ltac walk_commands leaf :=
  unfold processVoiceCommand;
  repeat first
    [ progress leaf
    | match goal with
      | |- context [includes ?c ?k] =>
          destruct (includes c k) eqn:?; cbn [orb andb negb]
      | |- context [dark_theme ?p] =>
          destruct (dark_theme p) eqn:?; cbn [orb andb negb]
      end ].

(** X17: every command gets exactly one spoken reply, and the voice
    indicator is hidden before anything else happens. *)
Theorem every_command_is_answered_once command page :
  ∃ calls text,
    processVoiceCommand command page = hideVoiceIndicator :: calls ∧
    spoken calls = [text].
Proof.
  walk_commands ltac:(solve [eexists _, _; split; reflexivity]).
Qed.

(** X18: no command opens the report generator.  A command that contains
    generate report contains report, and the test for report comes first
    in the chain: it navigates to the reports section, or to a section an
    earlier test names. *)
Theorem report_generator_is_unreachable command page :
  (openReportGenerator ∉ processVoiceCommand command page) ∧
  (includes command "generate report" = true →
   ∃ section,
     section ∈ ["dashboard"; "cameras"; "alerts"; "reports"] ∧
     processVoiceCommand command page =
       [hideVoiceIndicator; navigateToSection section; speak ("Showing " +:+ section)]).
Proof.
  split.
  - walk_commands ltac:(solve
      [ intros Hin;
        repeat (apply elem_of_cons in Hin as [Hin|Hin]; [discriminate Hin|]);
        by apply elem_of_nil in Hin
      | match goal with
        | H : includes _ "generate report" = true |- _ =>
            apply (includes_part _ "generate " "report" "") in H; congruence
        end ]).
  - intros Hgenerate.
    apply (includes_part _ "generate " "report" "") in Hgenerate.
    walk_commands ltac:(solve
      [ congruence
      | eexists; split; [|reflexivity];
        repeat first [left; reflexivity | right] ]).
Qed.

(** X19: the counts of alerts and of cameras are never spoken.  A command
    that asks how many alerts or cameras there are contains alert or
    camera, and so is taken for a navigation command: it navigates to the
    dashboard, the cameras or the alerts section. *)
Theorem count_questions_navigate command page :
  includes command "how many alert" = true ∨
  includes command "number of alert" = true ∨
  includes command "how many camera" = true ∨
  includes command "number of camera" = true →
  ∃ section,
    section ∈ ["dashboard"; "cameras"; "alerts"] ∧
    processVoiceCommand command page =
      [hideVoiceIndicator; navigateToSection section; speak ("Showing " +:+ section)].
Proof.
  intros Hasks.
  assert (Hword : includes command "alert" = true ∨ includes command "camera" = true).
  { destruct Hasks as [H|[H|[H|H]]].
    - left. by apply (includes_part _ "how many " "alert" "").
    - left. by apply (includes_part _ "number of " "alert" "").
    - right. by apply (includes_part _ "how many " "camera" "").
    - right. by apply (includes_part _ "number of " "camera" ""). }
  clear Hasks.
  walk_commands ltac:(solve
    [ destruct Hword; congruence
    | eexists; split; [|reflexivity];
      repeat first [left; reflexivity | right] ]).
Qed.

(** X20: a command toggles the theme only towards the theme it names:
    [toggleTheme] is called either on a light page by a command that
    contains dark mode or dark theme, or on a dark page by a command that
    contains light mode or light theme. *)
Theorem theme_toggles_towards_the_named_theme command page :
  toggleTheme ∈ processVoiceCommand command page →
  (dark_theme page = false ∧
   (includes command "dark mode" = true ∨ includes command "dark theme" = true)) ∨
  (dark_theme page = true ∧
   (includes command "light mode" = true ∨ includes command "light theme" = true)).
Proof.
  walk_commands ltac:(solve
    [ intros Hin;
      repeat (apply elem_of_cons in Hin as [Hin|Hin]; [try discriminate Hin|]);
      try (by apply elem_of_nil in Hin); auto ]).
Qed.

(** ** The offline page *)

(** X23: the worker never installs its own offline page.  /offline.html
    is not in the manifest, so when the static partition did not hold it
    before the install it does not hold it afterwards, and a cache-first
    request that misses the static partition while the network is down
    gets the synthesized 503 response. *)
Theorem offline_page_is_never_installed network_at_install network_later w request error :
  stored STATIC_CACHE "/offline.html" w = None →
  let w1 := (install_listener network_at_install w).2 in
  stored STATIC_CACHE (url request) w1 = None →
  network_later (fetched w1) request = Rejected error →
  stored STATIC_CACHE "/offline.html" w1 = None ∧
  (cacheFirst network_later request w1).1 = Fulfilled offline_response.
Proof.
  intros Hnone w1 Hmiss Hdown.
  assert (Hstill : stored STATIC_CACHE "/offline.html" w1 = None).
  { subst w1. rewrite install_listener_frame; [done|].
    intros [_ Hin]. revert Hin. apply (bool_decide_unpack _). by vm_compute. }
  split; [done|].
  destruct (cacheFirst_miss_rejected network_later request error w1 Hmiss Hdown)
    as (w' & -> & _).
  cbn [fst]. by rewrite Hstill.
Qed.

(** X19 at the question how many alerts. *)
Lemma count_questions_navigate_witness :
  (includes "how many alerts" "how many alert" = true ∨
   includes "how many alerts" "number of alert" = true ∨
   includes "how many alerts" "how many camera" = true ∨
   includes "how many alerts" "number of camera" = true) ∧
  ∃ section,
    section ∈ ["dashboard"; "cameras"; "alerts"] ∧
    processVoiceCommand "how many alerts" (mkPage false "2" "3" "15") =
      [hideVoiceIndicator; navigateToSection section; speak ("Showing " +:+ section)].
Proof.
  assert (Hasks :
    includes "how many alerts" "how many alert" = true ∨
    includes "how many alerts" "number of alert" = true ∨
    includes "how many alerts" "how many camera" = true ∨
    includes "how many alerts" "number of camera" = true).
  { left. vm_compute. reflexivity. }
  split; [exact Hasks|].
  exact (count_questions_navigate "how many alerts" (mkPage false "2" "3" "15") Hasks).
Defined.

(** X20 at the command dark mode on a light page. *)
Lemma theme_toggles_towards_the_named_theme_witness :
  toggleTheme ∈ processVoiceCommand "dark mode" (mkPage false "2" "3" "15") ∧
  ((dark_theme (mkPage false "2" "3" "15") = false ∧
    (includes "dark mode" "dark mode" = true ∨ includes "dark mode" "dark theme" = true)) ∨
   (dark_theme (mkPage false "2" "3" "15") = true ∧
    (includes "dark mode" "light mode" = true ∨ includes "dark mode" "light theme" = true))).
Proof.
  assert (Hin : toggleTheme ∈ processVoiceCommand "dark mode" (mkPage false "2" "3" "15")).
  { vm_compute. right. left. }
  split; [exact Hin|].
  exact (theme_toggles_towards_the_named_theme "dark mode" (mkPage false "2" "3" "15") Hin).
Defined.

(** X22 at two worlds that differ in the static partition only. *)
Lemma networkFirst_reads_dynamic_entry_only_witness :
  fetched installed_world = fetched fresh_world ∧
  stored DYNAMIC_CACHE (url (GET "/index.html")) installed_world
    = stored DYNAMIC_CACHE (url (GET "/index.html")) fresh_world ∧
  (networkFirst offline (GET "/index.html") installed_world).1
    = (networkFirst offline (GET "/index.html") fresh_world).1.
Proof.
  assert (Hlog : fetched installed_world = fetched fresh_world) by reflexivity.
  assert (Hentry : stored DYNAMIC_CACHE (url (GET "/index.html")) installed_world
                   = stored DYNAMIC_CACHE (url (GET "/index.html")) fresh_world).
  { vm_compute. reflexivity. }
  split; [exact Hlog|]. split; [exact Hentry|].
  exact (networkFirst_reads_dynamic_entry_only offline (GET "/index.html")
           installed_world fresh_world Hlog Hentry).
Defined.

(** X21 at the dynamic entry of an API URL, across a successful install. *)
Lemma install_touches_manifest_entries_only_witness :
  ¬ (DYNAMIC_CACHE = STATIC_CACHE ∧ "/api/cameras" ∈ STATIC_ASSETS) ∧
  stored DYNAMIC_CACHE "/api/cameras" (install_listener online mirrored_world).2
    = stored DYNAMIC_CACHE "/api/cameras" mirrored_world.
Proof.
  assert (Hother : ¬ (DYNAMIC_CACHE = STATIC_CACHE ∧ "/api/cameras" ∈ STATIC_ASSETS)).
  { intros [Hname _]. discriminate Hname. }
  split; [exact Hother|].
  exact (install_touches_manifest_entries_only online DYNAMIC_CACHE "/api/cameras"
           mirrored_world Hother).
Defined.

(** X23 on a fresh worker: installed online, asked for a page it does not
    hold while offline. *)
Lemma offline_page_is_never_installed_witness :
  stored STATIC_CACHE "/offline.html" fresh_world = None ∧
  let w1 := (install_listener online fresh_world).2 in
  stored STATIC_CACHE (url (GET "/reports.html")) w1 = None ∧
  offline (fetched w1) (GET "/reports.html") = Rejected (TypeError "Failed to fetch") ∧
  stored STATIC_CACHE "/offline.html" w1 = None ∧
  (cacheFirst offline (GET "/reports.html") w1).1 = Fulfilled offline_response.
Proof.
  assert (Hnone : stored STATIC_CACHE "/offline.html" fresh_world = None) by reflexivity.
  assert (Hmiss : stored STATIC_CACHE (url (GET "/reports.html"))
                    (install_listener online fresh_world).2 = None).
  { vm_compute. reflexivity. }
  assert (Hdown : offline (fetched (install_listener online fresh_world).2)
                    (GET "/reports.html") = Rejected (TypeError "Failed to fetch"))
    by reflexivity.
  split; [exact Hnone|]. split; [exact Hmiss|]. split; [exact Hdown|].
  exact (offline_page_is_never_installed online offline fresh_world (GET "/reports.html")
           (TypeError "Failed to fetch") Hnone Hmiss Hdown).
Defined.

(** Generate report, said aloud, shows the reports section. *)
Example generate_report_navigates :
  processVoiceCommand "generate report" (mkPage false "2" "3" "15") =
    [hideVoiceIndicator; navigateToSection "reports"; speak "Showing reports"].
Proof. by vm_compute. Qed.
